(** * Tic-Tac-Toe: minimax engine and dataset-driven player

    A shallow embedding of [QY_Project2_PartB.py] (human against the
    minimax computer) and [QY_Project2_PartC.py] (human against the
    dataset-driven computer), with the properties of the two move
    engines stated and proved over the embedding.

    Conventions.
    - Python [int] is [Z]; [float('-inf')] and [float('inf')] are the two
      extra points of [score].
    - A cell of [Board.c] holds one of the strings [" "], ["X"], ["O"]:
      the type [cell].  The players' marks are ['X'] or ['O'] ([main]
      accepts nothing else): the type [mark].
    - [Board.c] is created as a 3x3 list of lists and only ever updated
      cell by cell, so it is a grid of fixed shape indexed by [idx], the
      values of [range(3)].
    - A method that mutates [self] is a function of the state monad [M]
      over the object; recursion that Python bounds only dynamically takes
      a fuel argument, and running out of fuel is the [None] result.
    - A method that only reads [self] is a function of the object; a call
      that may raise returns an [outcome] (Part C).
    - The built-ins of Python that Part C relies on ([str.strip],
      [str.split], [int], [list.sort], [max], [set]) are modelled in the
      modules [Py] and [CPythonSet].  A [string] stands for the Python
      [str] of the same characters when all of them are ASCII
      ([Py.is_ascii]); the file read by [loadDataset] is given as the list
      of the lines that iterating over it yields, for a file that [open]
      can read and decode.  The theorem on what the loader makes of the
      lines of a file ([loadDataset_lines]) has [Py.is_ascii] as a
      hypothesis.
    - [similarity] and [differences] read [board_state[i]] for [i] in
      [range(9)] with a default, where Python raises [IndexError] on a
      list of fewer than nine components.  [getBoardState] and
      [loadDataset] build none, and the theorems on the vote have the
      hypothesis [well_formed]; the game loop of Part C raises
      [IndexError] where the source does ([PartCLoop.short_record]). *)

From Stdlib Require Import ZArith List Bool Lia String Ascii.
From Stdlib Require Import Permutation Sorted.
Import ListNotations.

Local Open Scope Z_scope.

(** ** Marks, cells and the grid *)

Inductive mark : Type := X | O.

Inductive cell : Type :=
| Blank                (* " " *)
| Mk (m : mark).       (* "X" or "O" *)

(** The values of [range(3)]. *)
Inductive idx : Type := I0 | I1 | I2.

Definition range3 : list idx := [I0; I1; I2].

Definition idxZ (i : idx) : Z :=
  match i with I0 => 0 | I1 => 1 | I2 => 2 end.

Definition mark_eqb (a b : mark) : bool :=
  match a, b with
  | X, X | O, O => true
  | _, _ => false
  end.

Definition cell_eqb (a b : cell) : bool :=
  match a, b with
  | Blank, Blank => true
  | Mk m, Mk n => mark_eqb m n
  | _, _ => false
  end.

(** [winner == self.computer], where [winner] is a string or [None]. *)
Definition opt_cell_eqb (a b : option cell) : bool :=
  match a, b with
  | Some x, Some y => cell_eqb x y
  | None, None => true
  | _, _ => false
  end.

Record Row : Type := mkRow { r0 : cell; r1 : cell; r2 : cell }.

(** [Board.c]: three rows of three cells. *)
Record Board : Type := mkBoard { c0 : Row; c1 : Row; c2 : Row }.

(** [Board.__init__] *)
Definition Board_init : Board :=
  let blank := mkRow Blank Blank Blank in mkBoard blank blank blank.

Definition row_get (r : Row) (j : idx) : cell :=
  match j with I0 => r0 r | I1 => r1 r | I2 => r2 r end.

Definition row_set (r : Row) (j : idx) (v : cell) : Row :=
  match j with
  | I0 => mkRow v (r1 r) (r2 r)
  | I1 => mkRow (r0 r) v (r2 r)
  | I2 => mkRow (r0 r) (r1 r) v
  end.

Definition row_of (b : Board) (i : idx) : Row :=
  match i with I0 => c0 b | I1 => c1 b | I2 => c2 b end.

(** [b.c[i][j]] *)
Definition get (b : Board) (i j : idx) : cell := row_get (row_of b i) j.

(** [b.c[i][j] = v] *)
Definition set (b : Board) (i j : idx) (v : cell) : Board :=
  match i with
  | I0 => mkBoard (row_set (c0 b) j v) (c1 b) (c2 b)
  | I1 => mkBoard (c0 b) (row_set (c1 b) j v) (c2 b)
  | I2 => mkBoard (c0 b) (c1 b) (row_set (c2 b) j v)
  end.

(** The pairs [(i, j)] of [for i in range(3): for j in range(3)], in the
    order the two loops visit them. *)
Definition row_major : list (idx * idx) :=
  flat_map (fun i => map (fun j => (i, j)) range3) range3.

Definition is_blank (x : cell) : nat :=
  if cell_eqb x Blank then 1%nat else 0%nat.

(** Number of cells holding [" "]. *)
Definition blanks (b : Board) : nat :=
  List.length
    (filter (fun p => cell_eqb (get b (fst p) (snd p)) Blank) row_major).

(** ** Scores: integers and the two infinities of [float] *)

Inductive score : Type :=
| NegInf               (* float('-inf') *)
| Fin (z : Z)
| PosInf.              (* float('inf') *)

(** [a > b] *)
Definition score_gtb (a b : score) : bool :=
  match a, b with
  | NegInf, _ => false
  | Fin _, NegInf => true
  | Fin x, Fin y => x >? y
  | Fin _, PosInf => false
  | PosInf, PosInf => false
  | PosInf, _ => true
  end.

(** [max(a, b)]: the first argument stays unless the second is greater. *)
Definition py_max (a b : score) : score := if score_gtb b a then b else a.

(** [min(a, b)]: the first argument stays unless the second is smaller. *)
Definition py_min (a b : score) : score := if score_gtb a b then b else a.

(** A score is below [b]: the scan has kept nothing as good as [b] yet. *)
Definition below (s : score) (b : Z) : Prop :=
  match s with NegInf => True | Fin a => a < b | PosInf => False end.

(** ** The state monad of a method call

    [M S A] is a computation on an object of type [S] that returns an [A]
    and the updated object, or [None] when the fuel of a recursive call
    ran out. *)

Definition M (S A : Type) : Type := S -> option (A * S).

Definition ret {S A} (a : A) : M S A := fun s => Some (a, s).

Definition bind {S A B} (m : M S A) (k : A -> M S B) : M S B :=
  fun s => match m s with
           | Some (a, s') => k a s'
           | None => None
           end.

Definition gets {S A} (f : S -> A) : M S A := fun s => Some (f s, s).

Definition modify {S} (f : S -> S) : M S unit := fun s => Some (tt, f s).

Definition out_of_fuel {S A} : M S A := fun _ => None.

Declare Scope monad_scope.
Delimit Scope monad_scope with monad.
Notation "x <- m ;; k" := (bind m (fun x => k))
  (at level 61, m at next level, right associativity) : monad_scope.
Notation "m ;;; k" := (bind m (fun _ => k))
  (at level 61, right associativity) : monad_scope.

(** [for x in xs: acc = body(x, acc)] *)
Fixpoint for_each {S A Acc} (xs : list A) (acc : Acc)
         (body : A -> Acc -> M S Acc) : M S Acc :=
  match xs with
  | [] => ret acc
  | x :: xs' => bind (body x acc) (fun acc' => for_each xs' acc' body)
  end.

(** * Part B: the minimax computer *)

Module PartB.

Record Game : Type := mkGame {
  board : Board;
  turn : mark;
  human : mark;
  computer : mark
}.

(** [Game.__init__(human_player)] *)
Definition Game_init (human_player : mark) : Game :=
  {| board := Board_init;
     turn := X;
     human := human_player;
     computer := if mark_eqb human_player X then O else X |}.

Definition with_board (self : Game) (b : Board) : Game :=
  {| board := b; turn := turn self; human := human self;
     computer := computer self |}.

(** [self.board.c[row][col] = v] *)
Definition assign (row col : idx) (v : cell) (self : Game) : Game :=
  with_board self (set (board self) row col v).

Definition switchPlayer (self : Game) : Game :=
  {| board := board self;
     turn := if mark_eqb (turn self) X then O else X;
     human := human self; computer := computer self |}.

(** The three-cell test
    [c[a] == c[b] == c[d] and c[a] != " "] of [checkWin] and [getWinner]. *)
Definition three (x y z : cell) : bool :=
  cell_eqb x y && cell_eqb y z && negb (cell_eqb x Blank).

Definition row_wins (b : Board) (i : idx) : bool :=
  three (get b i I0) (get b i I1) (get b i I2).

Definition col_wins (b : Board) (j : idx) : bool :=
  three (get b I0 j) (get b I1 j) (get b I2 j).

Definition checkFull (self : Game) : bool :=
  forallb (fun p => negb (cell_eqb (get (board self) (fst p) (snd p)) Blank))
          row_major.

Definition checkWin (self : Game) : bool :=
  let b := board self in
  if existsb (row_wins b) range3 then true
  else if existsb (col_wins b) range3 then true
  else if three (get b I0 I0) (get b I1 I1) (get b I2 I2) then true
  else if three (get b I0 I2) (get b I1 I1) (get b I2 I0) then true
  else false.

(** [getWinner]: the string in the first winning line, or [None]. *)
Definition getWinner (self : Game) : option cell :=
  let b := board self in
  match find (row_wins b) range3 with
  | Some i => Some (get b i I0)
  | None =>
    match find (col_wins b) range3 with
    | Some j => Some (get b I0 j)
    | None =>
      if three (get b I0 I0) (get b I1 I1) (get b I2 I2)
      then Some (get b I0 I0)
      else if three (get b I0 I2) (get b I1 I1) (get b I2 I0)
      then Some (get b I0 I2)
      else None
    end
  end.

(** [checkEnd], without the two messages it prints. *)
Definition checkEnd (self : Game) : bool :=
  if checkWin self then true
  else if checkFull self then true
  else false.

Definition getAvailableMoves (self : Game) : list (idx * idx) :=
  filter (fun p => cell_eqb (get (board self) (fst p) (snd p)) Blank)
         row_major.

Local Open Scope monad_scope.

(** [minimax(depth, is_maximizing)].  Each level of the recursion holds one
    more mark than its caller, so a fuel above the number of blank cells
    is never used up ([minimax_enough_fuel]). *)
Fixpoint minimax (fuel : nat) (depth : Z) (is_maximizing : bool)
  : M Game score :=
  match fuel with
  | 0%nat => out_of_fuel
  | S fuel' =>
    winner <- gets getWinner ;;
    computer_ <- gets computer ;;
    human_ <- gets human ;;
    full <- gets checkFull ;;
    if opt_cell_eqb winner (Some (Mk computer_)) then ret (Fin (10 - depth))
    else if opt_cell_eqb winner (Some (Mk human_)) then ret (Fin (depth - 10))
    else if full then ret (Fin 0)
    else if is_maximizing then
      moves <- gets getAvailableMoves ;;
      for_each moves NegInf (fun '(row, col) max_score =>
        modify (assign row col (Mk computer_)) ;;;
        score_ <- minimax fuel' (depth + 1) false ;;
        modify (assign row col Blank) ;;;
        ret (py_max score_ max_score))
    else
      moves <- gets getAvailableMoves ;;
      for_each moves PosInf (fun '(row, col) min_score =>
        modify (assign row col (Mk human_)) ;;;
        score_ <- minimax fuel' (depth + 1) true ;;
        modify (assign row col Blank) ;;;
        ret (py_min score_ min_score))
  end.

(** [getBestMove]: the loop state is [(best_score, best_move)]. *)
Definition getBestMove (fuel : nat) : M Game (option (idx * idx)) :=
  moves <- gets getAvailableMoves ;;
  computer_ <- gets computer ;;
  best <- for_each moves (NegInf, None) (fun '(row, col) best =>
    modify (assign row col (Mk computer_)) ;;;
    score_ <- minimax fuel 0 false ;;
    modify (assign row col Blank) ;;;
    if score_gtb score_ (fst best) then ret (score_, Some (row, col))
    else ret best) ;;
  ret (snd best).

(** One iteration of the two loops of [minimax]: place [who], recurse for
    the other side one level deeper, clear the cell, combine. *)
Definition trial (fuel : nat) (depth : Z) (who : mark) (reply_max : bool)
           (combine : score -> score -> score)
  : idx * idx -> score -> M Game score :=
  fun '(row, col) acc =>
    modify (assign row col (Mk who)) ;;;
    score_ <- minimax fuel (depth + 1) reply_max ;;
    modify (assign row col Blank) ;;;
    ret (combine score_ acc).

(** One iteration of the loop of [getBestMove]. *)
Definition best_trial (fuel : nat) (who : mark)
  : idx * idx -> score * option (idx * idx) ->
    M Game (score * option (idx * idx)) :=
  fun '(row, col) best =>
    modify (assign row col (Mk who)) ;;;
    score_ <- minimax fuel 0 false ;;
    modify (assign row col Blank) ;;;
    if score_gtb score_ (fst best) then ret (score_, Some (row, col))
    else ret best.

(** The pure step of the loop of [getBestMove]. *)
Definition keep_best (f : idx * idx -> Z)
           (best : score * option (idx * idx)) (mv : idx * idx)
  : score * option (idx * idx) :=
  if score_gtb (Fin (f mv)) (fst best) then (Fin (f mv), Some mv) else best.

(** The position after [who] has played [mv]. *)
Definition play (mv : idx * idx) (who : mark) (self : Game) : Game :=
  assign (fst mv) (snd mv) (Mk who) self.

(** The integer [minimax] returns on [self] when it is given more fuel
    than there are blank cells. *)
Definition minimax_val (self : Game) (depth : Z) (is_maximizing : bool) : Z :=
  match minimax (S (blanks (board self))) depth is_maximizing self with
  | Some (Fin v, _) => v
  | _ => 0
  end.

(** Greatest and least element of a list of integers that is not empty. *)
Definition maximum (l : list Z) : Z :=
  match l with
  | [] => 0
  | x :: xs => fold_left Z.max xs x
  end.

Definition minimum (l : list Z) : Z :=
  match l with
  | [] => 0
  | x :: xs => fold_left Z.min xs x
  end.

(** The recursive scoring of the specification, as a pure function. *)
Fixpoint value (fuel : nat) (self : Game) (depth : Z) (maximizing : bool) : Z :=
  match fuel with
  | 0%nat => 0
  | S fuel' =>
    if opt_cell_eqb (getWinner self) (Some (Mk (computer self)))
    then 10 - depth
    else if opt_cell_eqb (getWinner self) (Some (Mk (human self)))
    then depth - 10
    else if checkFull self then 0
    else if maximizing
    then maximum (map (fun mv => value fuel' (play mv (computer self) self)
                                       (depth + 1) false)
                      (getAvailableMoves self))
    else minimum (map (fun mv => value fuel' (play mv (human self) self)
                                       (depth + 1) true)
                      (getAvailableMoves self))
  end.

(** Minimax against minimax: the loop of [playGame] in which the side to
    move is always the computer.  [as_computer] configures the engine for
    the side to move (its own mark is [computer], the other is [human]).
    [None] also stands for the exception Python raises on unpacking a
    [None] move. *)
Definition other (m : mark) : mark := if mark_eqb m X then O else X.

Definition as_computer (self : Game) : Game :=
  {| board := board self; turn := turn self;
     human := other (turn self); computer := turn self |}.

Fixpoint selfPlay (plies : nat) : M Game unit :=
  match plies with
  | 0%nat => out_of_fuel
  | S plies' =>
    modify as_computer ;;;
    best_move <- getBestMove 9 ;;
    match best_move with
    | None => out_of_fuel
    | Some (row, col) =>
      turn_ <- gets turn ;;
      modify (assign row col (Mk turn_)) ;;;
      ended <- gets checkEnd ;;
      if ended then ret tt
      else modify switchPlayer ;;; selfPlay plies'
    end
  end.

(** The eight lines in the order of the specification: rows top to
    bottom, columns left to right, the diagonal from the top left, the
    diagonal from the top right. *)
Definition line : Type := ((idx * idx) * (idx * idx) * (idx * idx))%type.

Definition lines : list line :=
  [ ((I0, I0), (I0, I1), (I0, I2));
    ((I1, I0), (I1, I1), (I1, I2));
    ((I2, I0), (I2, I1), (I2, I2));
    ((I0, I0), (I1, I0), (I2, I0));
    ((I0, I1), (I1, I1), (I2, I1));
    ((I0, I2), (I1, I2), (I2, I2));
    ((I0, I0), (I1, I1), (I2, I2));
    ((I0, I2), (I1, I1), (I2, I0)) ].

Definition at_ (b : Board) (p : idx * idx) : cell := get b (fst p) (snd p).

(** The three cells of the line are equal and not blank. *)
Definition complete (b : Board) (l : line) : bool :=
  let '(p, q, r) := l in
  cell_eqb (at_ b p) (at_ b q) && cell_eqb (at_ b q) (at_ b r)
  && negb (cell_eqb (at_ b p) Blank).

(** The mark of the first complete line, if there is one. *)
Definition first_complete_line (b : Board) : option cell :=
  match find (complete b) lines with
  | Some (p, _, _) => Some (at_ b p)
  | None => None
  end.

(** A position of a game in progress; the computer plays [X] and is to
    move:
<<
      X | O |
     ---+---+---
        | X |
     ---+---+---
        |   | O
>> *)
Definition sample_game : Game :=
  {| board := mkBoard (mkRow (Mk X) (Mk O) Blank)
                      (mkRow Blank (Mk X) Blank)
                      (mkRow Blank Blank (Mk O));
     turn := X; human := O; computer := X |}.

(** Bound checks on the score of the specification.  [le_chk] succeeds
    only if the score is at most [b], [ge_chk] only if it is at least [b];
    a maximizing node needs all its moves for an upper bound and one of
    them for a lower bound, a minimizing node the other way round. *)
Fixpoint le_chk (fuel : nat) (g : Game) (d : Z) (m : bool) (b : Z) : bool :=
  match fuel with
  | 0%nat => false
  | S f =>
    if opt_cell_eqb (getWinner g) (Some (Mk (computer g))) then 10 - d <=? b
    else if opt_cell_eqb (getWinner g) (Some (Mk (human g))) then d - 10 <=? b
    else if checkFull g then 0 <=? b
    else if m
    then forallb (fun mv => le_chk f (play mv (computer g) g) (d + 1) false b)
                 (getAvailableMoves g)
    else existsb (fun mv => le_chk f (play mv (human g) g) (d + 1) true b)
                 (getAvailableMoves g)
  end.

Fixpoint ge_chk (fuel : nat) (g : Game) (d : Z) (m : bool) (b : Z) : bool :=
  match fuel with
  | 0%nat => false
  | S f =>
    if opt_cell_eqb (getWinner g) (Some (Mk (computer g))) then b <=? 10 - d
    else if opt_cell_eqb (getWinner g) (Some (Mk (human g))) then b <=? d - 10
    else if checkFull g then b <=? 0
    else if m
    then existsb (fun mv => ge_chk f (play mv (computer g) g) (d + 1) false b)
                 (getAvailableMoves g)
    else forallb (fun mv => ge_chk f (play mv (human g) g) (d + 1) true b)
                 (getAvailableMoves g)
  end.

(** The [k]-th available move scores at least [L], the moves before it
    less than [L], the moves after it at most [L]. *)
Definition best_cert (g : Game) (k : nat) (L : Z) : bool :=
  let scored b mv := le_chk 9 (play mv (computer g) g) 0 false b in
  match skipn k (getAvailableMoves g) with
  | [] => false
  | mv :: post =>
    ge_chk 9 (play mv (computer g) g) 0 false L
    && forallb (scored (L - 1)) (firstn k (getAvailableMoves g))
    && forallb (scored L) post
  end.

(** [selfPlay] replayed along a list of certified moves: the result is
    [Some] only if every ply's certificate holds. *)
Fixpoint replay (certs : list (nat * Z)) (g : Game) : option Game :=
  match certs with
  | [] => None
  | (k, L) :: certs' =>
    let g1 := as_computer g in
    match nth_error (getAvailableMoves g1) k with
    | None => None
    | Some (row, col) =>
      if best_cert g1 k L then
        let g2 := assign row col (Mk (turn g1)) g1 in
        if checkEnd g2 then Some g2 else replay certs' (switchPlayer g2)
      else None
    end
  end.

(** The board on which the game of minimax against itself ends:
<<
      X | X | O
     ---+---+---
      O | O | X
     ---+---+---
      X | O | X
>> *)
Definition drawn_board : Board :=
  mkBoard (mkRow (Mk X) (Mk X) (Mk O))
          (mkRow (Mk O) (Mk O) (Mk X))
          (mkRow (Mk X) (Mk O) (Mk X)).

(** The moves of the game of minimax against itself, each as its place
    among the available moves, with the score [0] it is certified at. *)
Definition drawn_game : list (nat * Z) :=
  [(0%nat, 0); (3%nat, 0); (0%nat, 0); (0%nat, 0); (2%nat, 0);
   (0%nat, 0); (0%nat, 0); (0%nat, 0); (0%nat, 0)].

End PartB.

(** * Python built-ins used by Part C *)

Module Py.

(** ** Strings (ASCII text) *)

(** The characters of the string are ASCII.  On such a string the
    functions below do what the built-ins of Python do; they are not
    meant for other characters (the whitespace and the decimal digits of
    Unicode, the letters that [str.lower] changes). *)
Definition is_ascii (s : string) : bool :=
  forallb (fun c => (nat_of_ascii c <? 128)%nat) (list_ascii_of_string s).

(** [c.isspace()] for an ASCII character: tab, line feed, vertical tab,
    form feed, carriage return, the four separators 0x1c-0x1f, space. *)
Definition is_space (c : ascii) : bool :=
  let n := nat_of_ascii c in
  ((9 <=? n) && (n <=? 13) || (28 <=? n) && (n <=? 32))%nat.

Definition is_empty (s : string) : bool :=
  match s with EmptyString => true | String _ _ => false end.

Fixpoint lstrip (s : string) : string :=
  match s with
  | EmptyString => EmptyString
  | String c s' => if is_space c then lstrip s' else s
  end.

Fixpoint rstrip (s : string) : string :=
  match s with
  | EmptyString => EmptyString
  | String c s' =>
    let r := rstrip s' in
    if is_space c && is_empty r then EmptyString else String c r
  end.

(** [s.strip()] *)
Definition strip (s : string) : string := rstrip (lstrip s).

(** [s.split()]: the maximal runs of characters that are not whitespace;
    [cur] is the run being read. *)
Fixpoint split_from (cur : string) (s : string) : list string :=
  match s with
  | EmptyString => if is_empty cur then [] else [cur]
  | String c s' =>
    if is_space c
    then (if is_empty cur then split_from EmptyString s'
          else cur :: split_from EmptyString s')
    else split_from (cur ++ String c EmptyString) s'
  end.

Definition split (s : string) : list string := split_from EmptyString s.

Definition digit_of (c : ascii) : option Z :=
  let n := nat_of_ascii c in
  if ((48 <=? n) && (n <=? 57))%nat then Some (Z.of_nat n - 48) else None.

Definition is_underscore (c : ascii) : bool := (nat_of_ascii c =? 95)%nat.

(** The digits of a decimal literal, most significant first: digits with
    single underscores between them.  [after_digit] tells whether the
    previous character was a digit. *)
Fixpoint literal_digits (after_digit : bool) (s : string) : option (list Z) :=
  match s with
  | EmptyString => if after_digit then Some [] else None
  | String c s' =>
    match digit_of c with
    | Some d =>
      match literal_digits true s' with
      | Some ds => Some (d :: ds)
      | None => None
      end
    | None =>
      if is_underscore c && after_digit
      then literal_digits false s'
      else None
    end
  end.

(** [sys.get_int_max_str_digits()]: CPython's default limit on the number
    of digits [int] converts. *)
Definition int_max_str_digits : nat := 4300.

Definition unsigned_int (s : string) : option Z :=
  match literal_digits false s with
  | Some ds =>
    if (List.length ds <=? int_max_str_digits)%nat
    then Some (fold_left (fun acc d => 10 * acc + d) ds 0)
    else None
  | None => None
  end.

(** [int(s)] for a token without whitespace: an optional sign and a
    decimal literal; [None] is [ValueError]. *)
Definition int (s : string) : option Z :=
  match s with
  | String "+"%char s' => unsigned_int s'
  | String "-"%char s' => option_map Z.opp (unsigned_int s')
  | _ => unsigned_int s
  end.

(** The whitespace that [int] ignores around the literal ([Py_ISSPACE]):
    tab, line feed, vertical tab, form feed, carriage return and space.
    The separators 0x1c-0x1f, which [str.strip] removes, are not among
    them. *)
Definition is_int_space (c : ascii) : bool :=
  let n := nat_of_ascii c in
  ((9 <=? n) && (n <=? 13) || (n =? 32))%nat.

Fixpoint int_lstrip (s : string) : string :=
  match s with
  | EmptyString => EmptyString
  | String c s' => if is_int_space c then int_lstrip s' else s
  end.

Fixpoint int_rstrip (s : string) : string :=
  match s with
  | EmptyString => EmptyString
  | String c s' =>
    let r := int_rstrip s' in
    if is_int_space c && is_empty r then EmptyString else String c r
  end.

(** [int(s)] for any string: the literal with whitespace around it. *)
Definition int_of (s : string) : option Z := int (int_rstrip (int_lstrip s)).

(** [[int(x) for x in tokens]]; [None] as soon as one conversion raises. *)
Fixpoint ints (tokens : list string) : option (list Z) :=
  match tokens with
  | [] => Some []
  | t :: ts =>
    match int t with
    | None => None
    | Some v =>
      match ints ts with
      | None => None
      | Some vs => Some (v :: vs)
      end
    end
  end.

Definition lower_char (c : ascii) : ascii :=
  let n := nat_of_ascii c in
  if ((65 <=? n) && (n <=? 90))%nat then ascii_of_nat (n + 32) else c.

(** [s.lower()] *)
Fixpoint lower (s : string) : string :=
  match s with
  | EmptyString => EmptyString
  | String c s' => String (lower_char c) (lower s')
  end.

(** [sub in s] *)
Fixpoint contains (sub s : string) : bool :=
  if String.prefix sub s then true
  else match s with
       | EmptyString => false
       | String _ s' => contains sub s'
       end.

(** ** Lists *)

(** [a == b] on lists of integers. *)
Fixpoint list_eqb (a b : list Z) : bool :=
  match a, b with
  | [], [] => true
  | x :: a', y :: b' => (x =? y) && list_eqb a' b'
  | _, _ => false
  end.

(** [x in l] *)
Definition mem (x : Z) (l : list Z) : bool := existsb (Z.eqb x) l.

(** [l.count(x)] *)
Definition count (l : list Z) (x : Z) : nat := count_occ Z.eq_dec l x.

(** [l.sort(reverse=True, key=key)].  Python's sort is stable, also with
    [reverse=True]: elements of equal key keep their order.  Insertion
    from the right puts an element in front of the elements that do not
    have a greater key. *)
Section Sort.
Context {A : Type} (key : A -> Z).

Fixpoint insert_desc (x : A) (l : list A) : list A :=
  match l with
  | [] => [x]
  | y :: l' => if key y >? key x then y :: insert_desc x l'
               else x :: l
  end.

Definition sort_desc (l : list A) : list A := fold_right insert_desc [] l.
End Sort.

(** [max(xs, key=key)] for an iterable that yields [x] and then [xs]: the
    first element of greatest key. *)
Definition max_by {A : Type} (key : A -> nat) (x : A) (xs : list A) : A :=
  fold_left (fun best y => if (key best <? key y)%nat then y else best) xs x.

End Py.

(** ** CPython's [set] of small non-negative integers

    The order in which [set(l)] is iterated is not part of the language;
    in CPython (3.7 and later) it is the order of the slots of a hash
    table.  An integer [0 <= n < 2**61 - 1] hashes to itself.  The table
    starts with 8 slots; a key goes to slot [hash & mask] or, when that is
    taken, along the probe sequence of [set_add_entry]; after an insertion
    that fills three fifths of the table the keys are re-inserted, in slot
    order, in a table of the first power of two above four times their
    number. *)

Module CPythonSet.

Definition table : Type := list (option Z).

Definition LINEAR_PROBES : Z := 9.
Definition PERTURB_SHIFT : Z := 5.

Definition slot (t : table) (i : Z) : option Z := nth (Z.to_nat i) t None.

Fixpoint store (t : table) (i : nat) (key : Z) : table :=
  match t, i with
  | [], _ => []
  | _ :: t', 0%nat => Some key :: t'
  | e :: t', S i' => e :: store t' i' key
  end.

Inductive probe : Type :=
| Unused (i : Z)     (* slot [i] is free *)
| Active             (* the key is in the table *)
| Collision.         (* all the slots looked at hold other keys *)

(** The [do ... while (probes--)] loop: slots [i], ..., [i + probes]. *)
Fixpoint linear (probes : nat) (t : table) (i : Z) (key : Z) : probe :=
  match slot t i with
  | None => Unused i
  | Some k =>
    if k =? key then Active
    else match probes with
         | 0%nat => Collision
         | S p => linear p t (i + 1) key
         end
  end.

(** The [while (1)] loop of [set_add_entry]. *)
Fixpoint look (fuel : nat) (t : table) (mask i perturb key : Z)
  : option probe :=
  let probes := if i + LINEAR_PROBES <=? mask then LINEAR_PROBES else 0 in
  match linear (Z.to_nat probes) t i key with
  | Collision =>
    match fuel with
    | 0%nat => None
    | S fuel' =>
      let perturb' := Z.shiftr perturb PERTURB_SHIFT in
      look fuel' t mask (Z.land (i * 5 + 1 + perturb') mask) perturb' key
    end
  | found => Some found
  end.

Definition mask_of (t : table) : Z := Z.of_nat (List.length t) - 1.

Definition keys (t : table) : list Z :=
  flat_map (fun e => match e with Some k => [k] | None => [] end) t.

(** Insertion of a key that is known to be absent ([set_insert_clean]). *)
Definition insert_clean (t : table) (key : Z) : table :=
  match look 64 t (mask_of t) (Z.land key (mask_of t)) key key with
  | Some (Unused i) => store t (Z.to_nat i) key
  | _ => t
  end.

Fixpoint grow (steps : nat) (newsize minused : Z) : Z :=
  match steps with
  | 0%nat => newsize
  | S n => if newsize <=? minused then grow n (newsize * 2) minused
           else newsize
  end.

(** [set_table_resize(so, minused)] *)
Definition resize (t : table) (minused : Z) : table :=
  let newsize := grow 64 8 minused in
  fold_left insert_clean (keys t) (repeat None (Z.to_nat newsize)).

(** [set_add_key] *)
Definition add (t : table) (key : Z) : table :=
  match look 64 t (mask_of t) (Z.land key (mask_of t)) key key with
  | Some (Unused i) =>
    let t' := store t (Z.to_nat i) key in
    let fill := Z.of_nat (List.length (keys t')) in
    if fill * 5 <? mask_of t' * 3 then t' else resize t' (fill * 4)
  | _ => t
  end.

(** [list(set(l))] *)
Definition set_iter (l : list Z) : list Z :=
  keys (fold_left add l (repeat None 8)).

End CPythonSet.

(** * Part C: the dataset-driven computer *)

Module PartC.

(** [Board.getBoardState] *)
Definition getBoardState (b : Board) : list Z :=
  map (fun p => match get b (fst p) (snd p) with
                | Mk X => 1
                | Mk O => -1
                | Blank => 0
                end) row_major.

(** [Board.indexToRowCol] *)
Definition indexToRowCol (index : Z) : Z * Z := (index / 3, index mod 3).

Inductive kind : Type := single | final.

Definition record : Type := (list Z * Z)%type.

Record MLPlayer : Type := mkMLPlayer {
  dataset : list record;
  dataset_type : kind
}.

(** What a call does: it returns a value or raises [ValueError]. *)
Inductive outcome (A : Type) : Type :=
| Returned (a : A)
| ValueError.
Arguments Returned {A} a.
Arguments ValueError {A}.

(** The body of the loop of [loadDataset] on one line of the file;
    [values[:9]] and [values[9]] are read from a list of length 10.  The
    line is ASCII text (see [Py.is_ascii]). *)
Definition load_line (line : string) (ds : list record)
  : outcome (list record) :=
  let line := Py.strip line in
  if Py.is_empty line then Returned ds
  else match Py.ints (Py.split line) with
       | None => ValueError
       | Some values =>
         if (List.length values =? 10)%nat
         then Returned (ds ++ [(firstn 9 values, nth 9 values 0)])
         else Returned ds
       end.

Fixpoint load_lines (lines : list string) (ds : list record)
  : outcome unit * list record :=
  match lines with
  | [] => (Returned tt, ds)
  | line :: lines' =>
    match load_line line ds with
    | ValueError => (ValueError, ds)
    | Returned ds' => load_lines lines' ds'
    end
  end.

(** [loadDataset(filename)] on a file system that maps a name to the
    lines of the file, or to [None] when there is no such file.  The
    result is what the call does and [self.dataset] afterwards.
    [FileNotFoundError] is caught; nothing catches [ValueError]. *)
Definition loadDataset (fs : string -> option (list string))
           (filename : string) (ds : list record)
  : outcome kind * list record :=
  match fs filename with
  | None => (Returned single, ds)
  | Some lines =>
    match load_lines lines ds with
    | (ValueError, ds') => (ValueError, ds')
    | (Returned _, ds') =>
      if Py.contains "single" (Py.lower filename) then (Returned single, ds')
      else if Py.contains "final" (Py.lower filename) then (Returned final, ds')
      else (Returned single, ds')
    end
  end.

(** [MLPlayer.__init__(dataset_file)] *)
Definition MLPlayer_init (fs : string -> option (list string))
           (dataset_file : string) : outcome MLPlayer :=
  match loadDataset fs dataset_file [] with
  | (Returned k, ds) => Returned (mkMLPlayer ds k)
  | (ValueError, _) => ValueError
  end.

(** [range(9)] *)
Definition range9 : list nat := seq 0 9.

(** [sum(1 for i in range(9) if current_state[i] == board_state[i])]
    for lists of nine components or more.  On a shorter list Python
    raises [IndexError]; see [well_formed] and [PartCLoop.short_record]. *)
Definition similarity (current_state board_state : list Z) : Z :=
  Z.of_nat (List.length
              (filter (fun i => nth i current_state 0 =? nth i board_state 0)
                      range9)).

(** The positions [i] with [current_state[i] == 0 and board[i] != 0],
    for lists of nine components or more. *)
Definition differences (current_state board_state : list Z) : list Z :=
  map Z.of_nat
      (filter (fun i => (nth i current_state 0 =? 0)
                        && negb (nth i board_state 0 =? 0))
              range9).

Definition similarities (self : MLPlayer) (current_state : list Z)
  : list (Z * list Z * Z) :=
  map (fun r => (similarity current_state (fst r), fst r, snd r))
      (dataset self).

Definition sim_key (x : Z * list Z * Z) : Z := fst (fst x).

(** [findSimilarBoardMoves(current_state, k)] *)
Definition findSimilarBoardMoves (self : MLPlayer) (current_state : list Z)
           (k : nat) : list Z :=
  let top_k := firstn k (Py.sort_desc sim_key (similarities self current_state)) in
  flat_map (fun x => differences current_state (snd (fst x))) top_k.

Section Engine.
(** The order in which [set(l)] is iterated. *)
Variable set_iter : list Z -> list Z.

(** [max(set(similar_moves), key=similar_moves.count)]; the set of a
    list that is not empty is not empty. *)
Definition most_common (similar_moves : list Z) : option Z :=
  match set_iter similar_moves with
  | [] => None
  | x :: xs => Some (Py.max_by (Py.count similar_moves) x xs)
  end.

(** [findBestMove(current_state)] *)
Definition findBestMove (self : MLPlayer) (current_state : list Z)
  : option Z :=
  match dataset self with
  | [] => None
  | _ :: _ =>
    match dataset_type self with
    | single =>
      match find (fun r => Py.list_eqb (fst r) current_state)
                 (dataset self) with
      | Some r => Some (snd r)
      | None => None
      end
    | final =>
      let similar_moves := findSimilarBoardMoves self current_state 5 in
      match similar_moves with
      | [] => None
      | _ :: _ => most_common similar_moves
      end
    end
  end.

Record Game : Type := mkGame {
  board : Board;
  turn : mark;
  human : mark;
  computer : mark;
  ml_player : MLPlayer
}.

Definition checkFull (self : Game) : bool :=
  forallb (fun p => negb (cell_eqb (get (board self) (fst p) (snd p)) Blank))
          row_major.

(** [getAvailableMoves]: the indices [i * 3 + j] of the blank cells. *)
Definition getAvailableMoves (self : Game) : list Z :=
  map (fun p => idxZ (fst p) * 3 + idxZ (snd p))
      (filter (fun p => cell_eqb (get (board self) (fst p) (snd p)) Blank)
              row_major).

(** [random.choice(seq)] is [seq[randbelow(len(seq))]]; on an empty
    sequence it raises [IndexError], the [None] of the result. *)
Variable randbelow : nat -> nat.

Definition random_choice (l : list Z) : option Z :=
  match l with
  | [] => None
  | _ :: _ => nth_error l (randbelow (List.length l))
  end.

(** [getMLMove] *)
Definition getMLMove (self : Game) : option (Z * Z) :=
  let current_state := getBoardState (board self) in
  let fallback :=
    option_map indexToRowCol (random_choice (getAvailableMoves self)) in
  match findBestMove (ml_player self) current_state with
  | Some best_move_index =>
    if Py.mem best_move_index (getAvailableMoves self)
    then Some (indexToRowCol best_move_index)
    else fallback
  | None => fallback
  end.
End Engine.

(** The answer the specification gives for an outcome-labelled dataset:
    the most frequent candidate, the earliest in the list of candidates
    among the most frequent ones. *)
Definition earliest_most_common (moves : list Z) : option Z :=
  match moves with
  | [] => None
  | x :: xs => Some (Py.max_by (Py.count moves) x xs)
  end.

(** The state vector of the exact-match example of the specification. *)
Definition example_state : list Z := [1; -1; 0; 0; 0; 0; 0; 0; 0].

(** Every record has a state vector of nine components. *)
Definition well_formed (ds : list record) : Prop :=
  Forall (fun r => List.length (fst r) = 9%nat) ds.

(** All the tokens of the line are integers. *)
Definition parses (line : string) : bool :=
  match Py.ints (Py.split (Py.strip line)) with
  | Some _ => true
  | None => false
  end.

(** The record of a line of ten integers; no record for any other line. *)
Definition record_of (line : string) : list record :=
  match Py.ints (Py.split (Py.strip line)) with
  | Some values =>
    if (List.length values =? 10)%nat
    then [(firstn 9 values, nth 9 values 0)]
    else []
  | None => []
  end.

Definition records_of (lines : list string) : list record :=
  flat_map record_of lines.

Definition kind_of_name (filename : string) : kind :=
  if Py.contains "single" (Py.lower filename) then single
  else if Py.contains "final" (Py.lower filename) then final
  else single.

(** A file with a line that holds a token that is no integer, between
    two lines of ten integers. *)
Definition bad_file : list string :=
  ["1 -1 0 0 0 0 0 0 0 4"%string;
   "1 -1 0 0 x 0 0 0 0 4"%string;
   "0 0 0 0 1 0 0 0 0 0"%string].

(** The lines up to the first one that holds a token that is no
    integer. *)
Fixpoint good_prefix (lines : list string) : list string :=
  match lines with
  | [] => []
  | line :: lines' => if parses line then line :: good_prefix lines' else []
  end.

(** A file without such a token: two lines of ten integers, a blank
    line, a line of nine integers and a line of eleven. *)
Definition skipping_file : list string :=
  ["1 -1 0 0 0 0 0 0 0 4"%string;
   "   "%string;
   "1 -1 0 0 0 0 0 0 0"%string;
   "0 0 0 0 1 0 0 0 0 0"%string;
   "1 -1 1 0 0 0 0 0 0 4 7"%string].

Definition one_file (name : string) (lines : list string)
  : string -> option (list string) :=
  fun filename => if String.eqb filename name then Some lines else None.

(** What [findBestMove] does on an outcome-labelled dataset [ds] and a
    query [q], given the order [set_iter] in which a set is iterated:
    the records, each with its similarity to [q], are sorted by
    similarity in descending order, records of equal similarity keeping
    their order; the candidates are the differences of the first five;
    with no candidate the answer is [None]; otherwise it is a candidate
    [m] of greatest count, namely the first such in the iteration order
    of the set of candidates. *)
Definition final_answer (set_iter : list Z -> list Z) (ds : list record)
           (q : list Z) : Prop :=
  let self := mkMLPlayer ds final in
  let sims := map (fun r => (similarity q (fst r), fst r, snd r)) ds in
  let sorted := Py.sort_desc sim_key sims in
  let moves :=
      flat_map (fun x => differences q (snd (fst x))) (firstn 5 sorted) in
  Permutation sorted sims /\
  StronglySorted (fun a b => sim_key b <= sim_key a) sorted /\
  (forall k, filter (fun x => sim_key x =? k) sorted
             = filter (fun x => sim_key x =? k) sims) /\
  (forall b x, In x (differences q b) <->
               exists i, x = Z.of_nat i /\ (i < 9)%nat /\
                         nth i q 0 = 0 /\ nth i b 0 <> 0) /\
  findSimilarBoardMoves self q 5 = moves /\
  match moves with
  | [] => findBestMove set_iter self q = None
  | _ :: _ =>
    exists pre m post,
      findBestMove set_iter self q = Some m /\
      set_iter moves = pre ++ m :: post /\
      In m moves /\
      (forall x, In x moves -> (Py.count moves x <= Py.count moves m)%nat) /\
      (forall x, In x pre -> (Py.count moves x < Py.count moves m)%nat)
  end.

(** Two final positions that each differ from the empty board in one
    cell: cell 5 in the first record, cell 2 in the second. *)
Definition blank_state : list Z := [0; 0; 0; 0; 0; 0; 0; 0; 0].

Definition tie_dataset : list record :=
  [([0; 0; 0; 0; 0; 1; 0; 0; 0], 1); ([0; 0; 1; 0; 0; 0; 0; 0; 0], 1)].

(** A game of Part C in progress, with the dataset above. *)
Definition sample_ml_game : Game :=
  {| board := mkBoard (mkRow (Mk X) (Mk O) Blank)
                      (mkRow Blank (Mk X) Blank)
                      (mkRow Blank Blank (Mk O));
     turn := X; human := O; computer := X;
     ml_player := mkMLPlayer tie_dataset final |}.

End PartC.

(** * The rest of Part B: entry validation and the game loop *)

(** The row or column that an integer within [0..2] denotes. *)
Definition to_idx (z : Z) : option idx :=
  if z =? 0 then Some I0
  else if z =? 1 then Some I1
  else if z =? 2 then Some I2
  else None.

Module PartBPlay.
Import PartB.

(** [validateEntry(row, col)]; the cell is read only after the range
    test, so the last branch is never taken. *)
Definition validateEntry (row col : Z) (self : Game) : bool :=
  if (row <? 0) || (row >? 2) || (col <? 0) || (col >? 2) then false
  else match to_idx row, to_idx col with
       | Some i, Some j =>
         if negb (cell_eqb (get (board self) i j) Blank) then false else true
       | _, _ => false
       end.

(** [int(input(...))] on the line the user typed, ASCII text: [int]
    ignores the whitespace around the literal; [None] is [ValueError]. *)
Definition read_int (typed : string) : option Z := Py.int_of typed.

(** The inner loop of [playGame] on the lines still to be read: it asks
    for a row and a column until [validateEntry] accepts them.  A line
    that is no integer ends the attempt ([except ValueError]) before the
    next line is read.  [None] is the [EOFError] of [input] when the lines
    run out. *)
Fixpoint read_move (self : Game) (input : list string)
  : option (idx * idx * list string) :=
  match input with
  | [] => None
  | typed_row :: rest =>
    match read_int typed_row with
    | None => read_move self rest
    | Some row =>
      match rest with
      | [] => None
      | typed_col :: rest' =>
        match read_int typed_col with
        | None => read_move self rest'
        | Some col =>
          if validateEntry row col self
          then match to_idx row, to_idx col with
               | Some i, Some j => Some (i, j, rest')
               | _, _ => None
               end
          else read_move self rest'
        end
      end
    end
  end.

(** How [playGame] ends: the loop is left after [checkEnd], or an
    exception leaves the method ([EOFError] from [input], [TypeError] from
    unpacking a [None] move), or the fuel of the model ran out. *)
Inductive ending : Type :=
| GameOver (final : Game)
| EOFError
| TypeError
| OutOfFuel.

(** [playGame], without what it prints.  Every turn of the outer loop
    places a mark, so nine turns at most are taken. *)
Fixpoint playGame (fuel : nat) (self : Game) (input : list string) : ending :=
  match fuel with
  | 0%nat => OutOfFuel
  | S fuel' =>
    let moved :=
        if mark_eqb (turn self) (human self)
        then match read_move self input with
             | None => inl EOFError
             | Some (row, col, rest) =>
               inr (assign row col (Mk (turn self)) self, rest)
             end
        else match getBestMove 9 self with
             | None => inl OutOfFuel
             | Some (None, _) => inl TypeError
             | Some (Some (row, col), self') =>
               inr (assign row col (Mk (turn self')) self', input)
             end in
    match moved with
    | inl stopped => stopped
    | inr (self', rest) =>
      if checkEnd self' then GameOver self'
      else playGame fuel' (switchPlayer self') rest
    end
  end.

(** The computer is to move. *)
Definition computer_to_move (self : Game) : bool :=
  negb (mark_eqb (turn self) (human self)).

(** The human cannot force a win from the position: the computer has
    won or the board is full without a winner, or the side to move is the
    computer and has a move to such a position, or it is the human and
    every move leads to one. *)
Fixpoint secure (fuel : nat) (g : Game) (computer_moves : bool) : bool :=
  match fuel with
  | 0%nat => false
  | S f =>
    if opt_cell_eqb (getWinner g) (Some (Mk (computer g))) then true
    else if opt_cell_eqb (getWinner g) (Some (Mk (human g))) then false
    else if checkFull g then true
    else if computer_moves
    then existsb (fun mv => secure f (play mv (computer g) g) false)
                 (getAvailableMoves g)
    else forallb (fun mv => secure f (play mv (human g) g) true)
                 (getAvailableMoves g)
  end.

(** The flat index of a cell. *)
Definition flat (p : idx * idx) : Z := idxZ (fst p) * 3 + idxZ (snd p).

(** What a user might type: a line that is no number, a cell out of
    range, then the centre twice and a corner. *)
Definition typed_lines : list string :=
  ["x"%string; "7"%string; "1"%string; " 1 "%string; "1"%string;
   "1"%string; "1"%string; "0"%string; "2"%string].

(** A position one move before the computer ([X]) completes the
    diagonal from the top left:
<<
      X | O |
     ---+---+---
      O | X |
     ---+---+---
        |   |
>> *)
Definition winning_game : Game :=
  {| board := mkBoard (mkRow (Mk X) (Mk O) Blank)
                      (mkRow (Mk O) (Mk X) Blank)
                      (mkRow Blank Blank Blank);
     turn := X; human := O; computer := X |}.

(** One turn of the loop of [playGame]: the position after the move. *)
Definition after_move (g : Game) (i j : idx) : Game :=
  assign i j (Mk (turn g)) g.

(** [playGame] replayed with the computer's moves given by certificates
    (the place of the move among the available moves, and the score it is
    certified at): the result is [Some] only if every certificate
    holds. *)
Fixpoint certified_play (certs : list (nat * Z)) (fuel : nat) (g : Game)
         (input : list string) : option ending :=
  match fuel with
  | 0%nat => Some OutOfFuel
  | S fuel' =>
    if mark_eqb (turn g) (human g)
    then match read_move g input with
         | None => Some EOFError
         | Some (row, col, rest) =>
           let g1 := assign row col (Mk (turn g)) g in
           if checkEnd g1 then Some (GameOver g1)
           else certified_play certs fuel' (switchPlayer g1) rest
         end
    else match certs with
         | [] => None
         | (k, L) :: certs' =>
           match nth_error (getAvailableMoves g) k with
           | None => None
           | Some (row, col) =>
             if best_cert g k L
             then let g1 := assign row col (Mk (turn g)) g in
                  if checkEnd g1 then Some (GameOver g1)
                  else certified_play certs' fuel' (switchPlayer g1) input
             else None
           end
         end
  end.

(** The typed lines of a game the human ([X]) loses: a line that is no
    number, a cell out of range, the corner [(0, 0)], that corner again,
    then [(0, 1)] and [(1, 0)]. *)
Definition losing_lines : list string :=
  ["x"%string; "7"%string; "1"%string; " 0 "%string; "0"%string;
   "0"%string; "0"%string; "0"%string; "1"%string; "1"%string; "0"%string].

(** The computer's three moves in that game. *)
Definition losing_certs : list (nat * Z) :=
  [(3%nat, 0); (0%nat, 0); (1%nat, 10)].

(** The board on which that game ends. *)
Definition lost_game : Game :=
  {| board := mkBoard (mkRow (Mk X) (Mk X) (Mk O))
                      (mkRow (Mk X) (Mk O) Blank)
                      (mkRow (Mk O) Blank Blank);
     turn := O; human := X; computer := O |}.

Definition is_mark (m : mark) (x : cell) : nat :=
  if cell_eqb x (Mk m) then 1%nat else 0%nat.

(** Number of cells holding the mark [m]. *)
Definition marks (m : mark) (b : Board) : nat :=
  List.length
    (filter (fun p => cell_eqb (get b (fst p) (snd p)) (Mk m)) row_major).

(** The turn agrees with the marks on the board: [X] is to move when
    there are as many [X] as [O], and [O] when there is one [X] more. *)
Definition in_turn (g : Game) : Prop :=
  match turn g with
  | X => marks X (board g) = marks O (board g)
  | O => marks X (board g) = S (marks O (board g))
  end.

End PartBPlay.

(** * The rest of Part C *)

Module PartCPlay.
Import PartC.

(** [validateEntry(row, col)] of Part C. *)
Definition validateEntry (row col : Z) (self : Game) : bool :=
  if (row <? 0) || (row >? 2) || (col <? 0) || (col >? 2) then false
  else match to_idx row, to_idx col with
       | Some i, Some j =>
         if negb (cell_eqb (get (board self) i j) Blank) then false else true
       | _, _ => false
       end.

(** [Game.__init__(human_player, dataset_file)]; the [ValueError] of the
    loader leaves the constructor. *)
Definition Game_init (fs : string -> option (list string))
           (human_player : mark) (dataset_file : string) : outcome Game :=
  match MLPlayer_init fs dataset_file with
  | ValueError => ValueError
  | Returned player =>
    Returned {| board := Board_init;
                turn := X;
                human := human_player;
                computer := if mark_eqb human_player X then O else X;
                ml_player := player |}
  end.

(** A file system without any file. *)
Definition no_file : string -> option (list string) := fun _ => None.

(** The integer that stands for a cell in a state vector. *)
Definition code (x : cell) : Z :=
  match x with Mk X => 1 | Mk O => -1 | Blank => 0 end.

End PartCPlay.

(** * The game loop of Part C *)

Module PartCLoop.
Import PartC PartCPlay.

(** [self.board.c[row][col] = v] *)
Definition assign (row col : idx) (v : cell) (self : Game) : Game :=
  {| board := set (board self) row col v; turn := turn self;
     human := human self; computer := computer self;
     ml_player := ml_player self |}.

Definition switchPlayer (self : Game) : Game :=
  {| board := board self;
     turn := if mark_eqb (turn self) X then O else X;
     human := human self; computer := computer self;
     ml_player := ml_player self |}.

Definition checkWin (self : Game) : bool :=
  let b := board self in
  if existsb (PartB.row_wins b) range3 then true
  else if existsb (PartB.col_wins b) range3 then true
  else if PartB.three (get b I0 I0) (get b I1 I1) (get b I2 I2) then true
  else if PartB.three (get b I0 I2) (get b I1 I1) (get b I2 I0) then true
  else false.

(** [checkEnd], without the two messages it prints. *)
Definition checkEnd (self : Game) : bool :=
  if checkWin self then true
  else if checkFull self then true
  else false.

(** The inner loop of [playGame]: as in Part B. *)
Fixpoint read_move (self : Game) (input : list string)
  : option (idx * idx * list string) :=
  match input with
  | [] => None
  | typed_row :: rest =>
    match PartBPlay.read_int typed_row with
    | None => read_move self rest
    | Some row =>
      match rest with
      | [] => None
      | typed_col :: rest' =>
        match PartBPlay.read_int typed_col with
        | None => read_move self rest'
        | Some col =>
          if validateEntry row col self
          then match to_idx row, to_idx col with
               | Some i, Some j => Some (i, j, rest')
               | _, _ => None
               end
          else read_move self rest'
        end
      end
    end
  end.

(** [findSimilarBoardMoves] reads [board_state[i]] for [i] in [range(9)]
    of every record of the dataset before it sorts them, and
    [findBestMove] calls it when the dataset is not empty and of the kind
    ['final']: a record of fewer than nine components raises
    [IndexError] there.  The exact-match search of the kind ['single']
    compares whole lists and reads no component. *)
Definition short_record (self : MLPlayer) : bool :=
  match dataset_type self with
  | final => existsb (fun r => (List.length (fst r) <? 9)%nat) (dataset self)
  | single => false
  end.

(** [getMLMove] with that [IndexError]; [None] is [IndexError], raised
    there or by [random.choice] on an empty list. *)
Definition getMLMove_raising (set_iter : list Z -> list Z)
           (randbelow : nat -> nat) (self : Game) : option (Z * Z) :=
  if short_record (ml_player self) then None
  else getMLMove set_iter randbelow self.

(** How [playGame] ends; [IndexError] is what [getMLMove] raises, and
    what a write outside the board would raise. *)
Inductive ending : Type :=
| GameOver (over : Game)
| EOFError
| IndexError
| OutOfFuel.

(** [playGame] of Part C, without what it prints.  [rand n] is the
    random source at the [n]-th turn of the loop. *)
Fixpoint playGame (set_iter : list Z -> list Z) (rand : nat -> nat -> nat)
         (fuel : nat) (n : nat) (self : Game) (input : list string) : ending :=
  match fuel with
  | 0%nat => OutOfFuel
  | S fuel' =>
    let moved :=
        if mark_eqb (turn self) (human self)
        then match read_move self input with
             | None => inl EOFError
             | Some (row, col, rest) =>
               inr (assign row col (Mk (turn self)) self, rest)
             end
        else match getMLMove_raising set_iter (rand n) self with
             | None => inl IndexError
             | Some (row, col) =>
               match to_idx row, to_idx col with
               | Some i, Some j =>
                 inr (assign i j (Mk (turn self)) self, input)
               | _, _ => inl IndexError
               end
             end in
    match moved with
    | inl stopped => stopped
    | inr (self', rest) =>
      if checkEnd self' then GameOver self'
      else playGame set_iter rand fuel' (S n) (switchPlayer self') rest
    end
  end.

(** What the user types against [sample_ml_game]: two moves. *)
Definition ml_lines : list string :=
  ["1"%string; "0"%string; "2"%string; "0"%string].

(** [sample_ml_game] with a dataset that holds a record of one
    component. *)
Definition short_game : Game :=
  {| board := board sample_ml_game; turn := X; human := O; computer := X;
     ml_player := mkMLPlayer [([1], 1)] final |}.

End PartCLoop.

(** Case analysis on every test of a conditional in the goal. *)
Ltac case_ifs :=
  repeat match goal with
         | |- context [if ?c then _ else _] => destruct c
         end.

(** * Properties *)

(** ** The grid *)

Lemma cell_eqb_eq (a b : cell) : cell_eqb a b = true <-> a = b.
Proof.
  destruct a as [|[]], b as [|[]]; simpl; split; intro H;
    try reflexivity; try discriminate H.
Qed.

Lemma cell_eqb_refl (a : cell) : cell_eqb a a = true.
Proof. apply cell_eqb_eq; reflexivity. Qed.

Lemma mark_not_blank (m : mark) : cell_eqb (Mk m) Blank = false.
Proof. reflexivity. Qed.

Lemma get_set_same (b : Board) (i j : idx) (v : cell) :
  get (set b i j v) i j = v.
Proof. destruct i, j; reflexivity. Qed.

Lemma set_set (b : Board) (i j : idx) (v w : cell) :
  set (set b i j v) i j w = set b i j w.
Proof. destruct i, j; reflexivity. Qed.

Lemma set_get (b : Board) (i j : idx) : set b i j (get b i j) = b.
Proof. destruct b as [[] [] []], i, j; reflexivity. Qed.

(** Placing a mark and clearing the cell again restores a grid whose cell
    was blank. *)
Lemma set_undo (b : Board) (i j : idx) (v : cell) :
  get b i j = Blank -> set (set b i j v) i j Blank = b.
Proof. intro H. rewrite set_set, <- H. apply set_get. Qed.

Lemma blanks_sum (b : Board) :
  blanks b =
  (is_blank (get b I0 I0) + is_blank (get b I0 I1) + is_blank (get b I0 I2) +
   is_blank (get b I1 I0) + is_blank (get b I1 I1) + is_blank (get b I1 I2) +
   is_blank (get b I2 I0) + is_blank (get b I2 I1) + is_blank (get b I2 I2))%nat.
Proof.
  destruct b as [[a0 a1 a2] [b0 b1 b2] [d0 d1 d2]].
  unfold blanks, is_blank; simpl.
  destruct (cell_eqb a0 Blank), (cell_eqb a1 Blank), (cell_eqb a2 Blank),
           (cell_eqb b0 Blank), (cell_eqb b1 Blank), (cell_eqb b2 Blank),
           (cell_eqb d0 Blank), (cell_eqb d1 Blank), (cell_eqb d2 Blank);
    reflexivity.
Qed.

(** A mark placed on a blank cell leaves one blank cell less. *)
Lemma blanks_set (b : Board) (i j : idx) (m : mark) :
  get b i j = Blank -> blanks b = S (blanks (set b i j (Mk m))).
Proof.
  intro H. rewrite !blanks_sum.
  destruct b as [[a0 a1 a2] [b0 b1 b2] [d0 d1 d2]].
  destruct i, j; cbn in H; subst; cbn; lia.
Qed.

(** ** The state monad *)

Lemma for_each_app {S A Acc} (xs ys : list A) (acc : Acc)
      (body : A -> Acc -> M S Acc) (s : S) :
  for_each (xs ++ ys) acc body s =
  match for_each xs acc body s with
  | Some (acc', s') => for_each ys acc' body s'
  | None => None
  end.
Proof.
  revert acc s. induction xs as [|x xs IH]; intros acc s; simpl.
  - reflexivity.
  - unfold bind. destruct (body x acc s) as [[acc' s']|]; [apply IH | reflexivity].
Qed.

(** A loop whose body returns to the state it started from, and agrees
    there with a pure step function, is the left fold of that function. *)
Lemma for_each_pure {S A Acc} (step : Acc -> A -> Acc)
      (body : A -> Acc -> M S Acc) (s : S) (xs : list A) (acc : Acc) :
  (forall x a, In x xs -> body x a s = Some (step a x, s)) ->
  for_each xs acc body s = Some (fold_left step xs acc, s).
Proof.
  revert acc. induction xs as [|x xs IH]; intros acc H; simpl.
  - reflexivity.
  - unfold bind. rewrite (H x acc (or_introl eq_refl)).
    apply IH. intros y a Hy. apply H. right; exact Hy.
Qed.

Module PartBFacts.
Import PartB.

Lemma available_blank (g : Game) (row col : idx) :
  In (row, col) (getAvailableMoves g) -> get (board g) row col = Blank.
Proof.
  unfold getAvailableMoves. rewrite filter_In. simpl.
  intros [_ H]. apply cell_eqb_eq; exact H.
Qed.

Lemma blanks_available (g : Game) :
  blanks (board g) = List.length (getAvailableMoves g).
Proof. reflexivity. Qed.

Lemma checkFull_available (g : Game) :
  checkFull g = false -> getAvailableMoves g <> [].
Proof.
  unfold checkFull, getAvailableMoves. intros H E.
  assert (F : forallb (fun p => negb (cell_eqb (get (board g) (fst p) (snd p)) Blank))
                row_major = true).
  { apply forallb_forall. intros p Hp.
    destruct (cell_eqb (get (board g) (fst p) (snd p)) Blank) eqn:Ec; [|reflexivity].
    assert (In p []) as [].
    rewrite <- E. apply filter_In. split; assumption. }
  rewrite F in H. discriminate H.
Qed.

Lemma assign_undo (g : Game) (row col : idx) (v : cell) :
  get (board g) row col = Blank ->
  assign row col Blank (assign row col v g) = g.
Proof.
  intro H. destruct g as [b t h cm]. unfold assign, with_board; simpl in *.
  rewrite (set_undo b row col v H). reflexivity.
Qed.

Lemma blanks_assign (g : Game) (row col : idx) (m : mark) :
  get (board g) row col = Blank ->
  blanks (board g) = S (blanks (board (assign row col (Mk m) g))).
Proof. intro H. simpl. apply blanks_set; exact H. Qed.

End PartBFacts.

(** ** Minimax *)

Module MinimaxFacts.
Import PartB PartBFacts.
Local Open Scope monad_scope.

Lemma py_max_fin (x a : Z) : py_max (Fin x) (Fin a) = Fin (Z.max a x).
Proof.
  unfold py_max, score_gtb. destruct (Z.gtb_spec a x); f_equal; lia.
Qed.

Lemma py_min_fin (x a : Z) : py_min (Fin x) (Fin a) = Fin (Z.min a x).
Proof.
  unfold py_min, score_gtb. destruct (Z.gtb_spec x a); f_equal; lia.
Qed.

Lemma fold_py_max (f : idx * idx -> Z) (xs : list (idx * idx)) (a : Z) :
  fold_left (fun acc x => py_max (Fin (f x)) acc) xs (Fin a) =
  Fin (fold_left Z.max (map f xs) a).
Proof.
  revert a. induction xs as [|x xs IH]; intro a; simpl.
  - reflexivity.
  - rewrite py_max_fin. apply IH.
Qed.

Lemma fold_py_min (f : idx * idx -> Z) (xs : list (idx * idx)) (a : Z) :
  fold_left (fun acc x => py_min (Fin (f x)) acc) xs (Fin a) =
  Fin (fold_left Z.min (map f xs) a).
Proof.
  revert a. induction xs as [|x xs IH]; intro a; simpl.
  - reflexivity.
  - rewrite py_min_fin. apply IH.
Qed.

Lemma fold_py_max_start (f : idx * idx -> Z) (xs : list (idx * idx)) :
  xs <> [] ->
  fold_left (fun acc x => py_max (Fin (f x)) acc) xs NegInf =
  Fin (maximum (map f xs)).
Proof.
  destruct xs as [|x xs]; [intro H; contradiction H; reflexivity|].
  intros _. simpl. apply fold_py_max.
Qed.

Lemma fold_py_min_start (f : idx * idx -> Z) (xs : list (idx * idx)) :
  xs <> [] ->
  fold_left (fun acc x => py_min (Fin (f x)) acc) xs PosInf =
  Fin (minimum (map f xs)).
Proof.
  destruct xs as [|x xs]; [intro H; contradiction H; reflexivity|].
  intros _. simpl. apply fold_py_min.
Qed.

(** One level of [minimax], with the reads of [self] carried out. *)
Lemma minimax_S (fuel : nat) (d : Z) (m : bool) (g : Game) :
  minimax (S fuel) d m g =
  if opt_cell_eqb (getWinner g) (Some (Mk (computer g)))
  then Some (Fin (10 - d), g)
  else if opt_cell_eqb (getWinner g) (Some (Mk (human g)))
  then Some (Fin (d - 10), g)
  else if checkFull g then Some (Fin 0, g)
  else if m
  then for_each (getAvailableMoves g) NegInf
                (trial fuel d (computer g) false py_max) g
  else for_each (getAvailableMoves g) PosInf
                (trial fuel d (human g) true py_min) g.
Proof.
  cbn [minimax]. unfold bind, gets, ret.
  destruct (opt_cell_eqb (getWinner g) (Some (Mk (computer g)))); [reflexivity|].
  destruct (opt_cell_eqb (getWinner g) (Some (Mk (human g)))); [reflexivity|].
  destruct (checkFull g); [reflexivity|].
  destruct m; reflexivity.
Qed.

(** A trial on a blank cell whose recursive call returns [v] and restores
    the position returns the combination and restores the position. *)
Lemma trial_run (fuel : nat) (d : Z) (who : mark) (r : bool)
      (combine : score -> score -> score) (g : Game) (mv : idx * idx)
      (acc : score) (v : Z) :
  get (board g) (fst mv) (snd mv) = Blank ->
  minimax fuel (d + 1) r (play mv who g) = Some (Fin v, play mv who g) ->
  trial fuel d who r combine mv acc g = Some (combine (Fin v) acc, g).
Proof.
  destruct mv as [row col]. unfold play; simpl. intros Hb Hm.
  unfold trial, bind, modify, ret. rewrite Hm.
  rewrite (assign_undo g row col (Mk who) Hb). reflexivity.
Qed.

(** [minimax] with more fuel than blank cells returns the score of the
    specification and the position it was called on. *)
Lemma minimax_value (fuel : nat) :
  forall (g : Game) (d : Z) (m : bool),
    (blanks (board g) < fuel)%nat ->
    minimax fuel d m g = Some (Fin (value fuel g d m), g).
Proof.
  induction fuel as [|fuel IH]; intros g d m Hlt; [lia|].
  rewrite minimax_S. cbn [value].
  destruct (opt_cell_eqb (getWinner g) (Some (Mk (computer g)))); [reflexivity|].
  destruct (opt_cell_eqb (getWinner g) (Some (Mk (human g)))); [reflexivity|].
  destruct (checkFull g) eqn:Hfull; [reflexivity|].
  pose proof (checkFull_available g Hfull) as Hne.
  assert (Hsub : forall (who : mark) (r : bool) mv,
             In mv (getAvailableMoves g) ->
             get (board g) (fst mv) (snd mv) = Blank /\
             minimax fuel (d + 1) r (play mv who g) =
             Some (Fin (value fuel (play mv who g) (d + 1) r), play mv who g)).
  { intros who r [row col] Hin.
    pose proof (available_blank g row col Hin) as Hb.
    split; [exact Hb|]. apply IH.
    pose proof (blanks_assign g row col who Hb) as E.
    unfold play; simpl fst; simpl snd. lia. }
  destruct m.
  - rewrite (for_each_pure
               (fun acc mv => py_max (Fin (value fuel (play mv (computer g) g)
                                                 (d + 1) false)) acc)).
    + rewrite (fold_py_max_start _ _ Hne). reflexivity.
    + intros mv a Hin. destruct (Hsub (computer g) false mv Hin) as [Hb Hm].
      apply trial_run; assumption.
  - rewrite (for_each_pure
               (fun acc mv => py_min (Fin (value fuel (play mv (human g) g)
                                                 (d + 1) true)) acc)).
    + rewrite (fold_py_min_start _ _ Hne). reflexivity.
    + intros mv a Hin. destruct (Hsub (human g) true mv Hin) as [Hb Hm].
      apply trial_run; assumption.
Qed.

End MinimaxFacts.

Module MinimaxTheorems.
Import PartB PartBFacts MinimaxFacts.

Lemma maximum_spec (l : list Z) :
  l <> [] -> In (maximum l) l /\ forall x, In x l -> x <= maximum l.
Proof.
  destruct l as [|a l]; [intro H; contradiction H; reflexivity|]. intros _.
  unfold maximum. revert a.
  induction l as [|y l IH]; intro a; simpl.
  - split; [left; reflexivity | intros x [->|[]]; lia].
  - destruct (IH (Z.max a y)) as [Hin Hle]. split.
    + destruct Hin as [E|Hin]; [|right; right; exact Hin].
      rewrite <- E. destruct (Z.max_spec a y) as [[_ ->]|[_ ->]]; auto.
    + intros x [->|[->|Hx]].
      * specialize (Hle (Z.max x y) (or_introl eq_refl)). lia.
      * specialize (Hle (Z.max a x) (or_introl eq_refl)). lia.
      * apply Hle. right; exact Hx.
Qed.

Lemma minimum_spec (l : list Z) :
  l <> [] -> In (minimum l) l /\ forall x, In x l -> minimum l <= x.
Proof.
  destruct l as [|a l]; [intro H; contradiction H; reflexivity|]. intros _.
  unfold minimum. revert a.
  induction l as [|y l IH]; intro a; simpl.
  - split; [left; reflexivity | intros x [->|[]]; lia].
  - destruct (IH (Z.min a y)) as [Hin Hle]. split.
    + destruct Hin as [E|Hin]; [|right; right; exact Hin].
      rewrite <- E. destruct (Z.min_spec a y) as [[_ ->]|[_ ->]]; auto.
    + intros x [->|[->|Hx]].
      * specialize (Hle (Z.min x y) (or_introl eq_refl)). lia.
      * specialize (Hle (Z.min a x) (or_introl eq_refl)). lia.
      * apply Hle. right; exact Hx.
Qed.

(** The score of the specification does not depend on the fuel once the
    fuel exceeds the number of blank cells. *)
Lemma value_fuel (f1 : nat) :
  forall (f2 : nat) (g : Game) (d : Z) (m : bool),
    (blanks (board g) < f1)%nat -> (blanks (board g) < f2)%nat ->
    value f1 g d m = value f2 g d m.
Proof.
  induction f1 as [|f1 IH]; intros f2 g d m H1 H2; [lia|].
  destruct f2 as [|f2]; [lia|]. cbn [value].
  destruct (opt_cell_eqb (getWinner g) (Some (Mk (computer g)))); [reflexivity|].
  destruct (opt_cell_eqb (getWinner g) (Some (Mk (human g)))); [reflexivity|].
  destruct (checkFull g); [reflexivity|].
  assert (Hsub : forall who r mv, In mv (getAvailableMoves g) ->
             value f1 (play mv who g) (d + 1) r =
             value f2 (play mv who g) (d + 1) r).
  { intros who r [row col] Hin.
    pose proof (blanks_assign g row col who (available_blank g row col Hin)) as E.
    apply IH; unfold play; simpl fst; simpl snd; lia. }
  destruct m; f_equal; apply map_ext_in; intros mv Hin; apply Hsub; exact Hin.
Qed.

Lemma minimax_val_value (g : Game) (d : Z) (m : bool) (fuel : nat) :
  (blanks (board g) < fuel)%nat -> minimax_val g d m = value fuel g d m.
Proof.
  intro H. unfold minimax_val.
  rewrite (minimax_value (S (blanks (board g))) g d m (Nat.lt_succ_diag_r _)).
  apply value_fuel; lia.
Qed.

(** Any fuel above the number of blank cells gives the same result, and
    the position is handed back as it was. *)
Lemma minimax_enough_fuel (g : Game) (d : Z) (m : bool) (fuel : nat) :
  (blanks (board g) < fuel)%nat ->
  minimax fuel d m g = Some (Fin (minimax_val g d m), g).
Proof.
  intro H. rewrite (minimax_value fuel g d m H).
  rewrite (minimax_val_value g d m fuel H). reflexivity.
Qed.

Lemma row_major_cells :
  row_major =
  [(I0, I0); (I0, I1); (I0, I2); (I1, I0); (I1, I1); (I1, I2);
   (I2, I0); (I2, I1); (I2, I2)].
Proof. reflexivity. Qed.

(** C1. [minimax(depth, is_maximizing)] returns: [10 - depth] when the
    winner is the computer's mark, [depth - 10] when it is the human's, [0]
    when the board is full; otherwise the greatest (maximizing) or least
    (minimizing) of the values [minimax(depth + 1, not is_maximizing)]
    returns on the positions reached by placing the computer's (the
    human's) mark on each available move, the moves being the blank cells
    in row-major order; and the call hands the position back as it was. *)
Theorem minimax_returns (g : Game) (d : Z) (m : bool) :
  minimax (S (blanks (board g))) d m g = Some (Fin (minimax_val g d m), g) /\
  getAvailableMoves g =
    filter (fun p => cell_eqb (get (board g) (fst p) (snd p)) Blank)
      [(I0, I0); (I0, I1); (I0, I2); (I1, I0); (I1, I1); (I1, I2);
       (I2, I0); (I2, I1); (I2, I2)] /\
  minimax_val g d m =
    if opt_cell_eqb (getWinner g) (Some (Mk (computer g))) then 10 - d
    else if opt_cell_eqb (getWinner g) (Some (Mk (human g))) then d - 10
    else if checkFull g then 0
    else if m
    then maximum (map (fun mv => minimax_val (play mv (computer g) g)
                                             (d + 1) false)
                      (getAvailableMoves g))
    else minimum (map (fun mv => minimax_val (play mv (human g) g)
                                             (d + 1) true)
                      (getAvailableMoves g)).
Proof.
  split; [apply minimax_enough_fuel; lia|].
  split; [reflexivity|].
  rewrite (minimax_val_value g d m (S (blanks (board g))) (Nat.lt_succ_diag_r _)).
  cbn [value].
  destruct (opt_cell_eqb (getWinner g) (Some (Mk (computer g)))); [reflexivity|].
  destruct (opt_cell_eqb (getWinner g) (Some (Mk (human g)))); [reflexivity|].
  destruct (checkFull g); [reflexivity|].
  assert (Hsub : forall who r mv, In mv (getAvailableMoves g) ->
             value (blanks (board g)) (play mv who g) (d + 1) r =
             minimax_val (play mv who g) (d + 1) r).
  { intros who r [row col] Hin. symmetry. apply minimax_val_value.
    pose proof (blanks_assign g row col who (available_blank g row col Hin)) as E.
    unfold play; simpl fst; simpl snd. lia. }
  destruct m; f_equal; apply map_ext_in; intros mv Hin; apply Hsub; exact Hin.
Qed.

End MinimaxTheorems.

(** ** The loops of the search *)

Module SearchFacts.
Import PartB PartBFacts MinimaxFacts MinimaxTheorems.

Lemma getBestMove_loop (fuel : nat) (g : Game) :
  getBestMove fuel g =
  match for_each (getAvailableMoves g) (NegInf, None)
                 (best_trial fuel (computer g)) g with
  | Some (best, g') => Some (snd best, g')
  | None => None
  end.
Proof. reflexivity. Qed.

Lemma best_trial_run (fuel : nat) (who : mark) (g : Game) (mv : idx * idx)
      (best : score * option (idx * idx)) (v : Z) :
  get (board g) (fst mv) (snd mv) = Blank ->
  minimax fuel 0 false (play mv who g) = Some (Fin v, play mv who g) ->
  best_trial fuel who mv best g =
  Some (if score_gtb (Fin v) (fst best) then (Fin v, Some mv) else best, g).
Proof.
  destruct mv as [row col]. unfold play; cbn [fst snd]. intros Hb Hm.
  unfold best_trial, bind, modify, ret. rewrite Hm.
  rewrite (assign_undo g row col (Mk who) Hb).
  destruct (score_gtb (Fin v) (fst best)); reflexivity.
Qed.

Lemma child_fuel (g : Game) (mv : idx * idx) (who : mark) (fuel : nat) :
  In mv (getAvailableMoves g) -> (blanks (board g) <= fuel)%nat ->
  get (board g) (fst mv) (snd mv) = Blank /\
  (blanks (board (play mv who g)) < fuel)%nat.
Proof.
  destruct mv as [row col]. intros Hin Hle.
  pose proof (available_blank g row col Hin) as Hb.
  pose proof (blanks_assign g row col who Hb) as E.
  split; [exact Hb|]. unfold play; simpl fst; simpl snd. lia.
Qed.

(** The loops of [minimax] over any part of the available moves. *)
Lemma trial_loop (g : Game) (fuel : nat) (d : Z) (who : mark) (r : bool)
      (combine : score -> score -> score) (xs : list (idx * idx))
      (acc : score) :
  incl xs (getAvailableMoves g) -> (blanks (board g) <= fuel)%nat ->
  for_each xs acc (trial fuel d who r combine) g =
  Some (fold_left
          (fun a mv => combine (Fin (minimax_val (play mv who g) (d + 1) r)) a)
          xs acc, g).
Proof.
  intros Hincl Hle. apply for_each_pure. intros mv a Hin.
  destruct (child_fuel g mv who fuel (Hincl mv Hin) Hle) as [Hb Hlt].
  apply trial_run; [exact Hb|]. apply minimax_enough_fuel; exact Hlt.
Qed.

(** The loop of [getBestMove] over any part of the available moves. *)
Lemma best_loop (g : Game) (fuel : nat) (xs : list (idx * idx))
      (best : score * option (idx * idx)) :
  incl xs (getAvailableMoves g) -> (blanks (board g) <= fuel)%nat ->
  for_each xs best (best_trial fuel (computer g)) g =
  Some (fold_left
          (keep_best (fun mv => minimax_val (play mv (computer g) g) 0 false))
          xs best, g).
Proof.
  intros Hincl Hle. apply for_each_pure. intros mv a Hin.
  destruct (child_fuel g mv (computer g) fuel (Hincl mv Hin) Hle) as [Hb Hlt].
  unfold keep_best. apply best_trial_run; [exact Hb|].
  apply minimax_enough_fuel; exact Hlt.
Qed.

Lemma incl_firstn {A} (k : nat) (l : list A) : incl (firstn k l) l.
Proof.
  revert l. induction k as [|k IH]; intros [|x l]; simpl.
  1-3: intros z Hz; destruct Hz.
  intros z [->|Hz]; [left; reflexivity | right; apply IH; exact Hz].
Qed.

(** A left-to-right scan that replaces the best move only on a strictly
    greater score ends on the first move of greatest score. *)
Lemma keep_best_first (f : idx * idx -> Z) (xs : list (idx * idx)) :
  forall b : idx * idx,
  exists pre mv post,
    b :: xs = pre ++ mv :: post /\
    fold_left (keep_best f) xs (Fin (f b), Some b) = (Fin (f mv), Some mv) /\
    (forall x, In x pre -> f x < f mv) /\
    (forall x, In x post -> f x <= f mv).
Proof.
  induction xs as [|x xs IH]; intro b.
  - exists [], b, []. repeat split; intros y [].
  - simpl. unfold keep_best at 2. simpl.
    destruct (Z.gtb_spec (f x) (f b)) as [Hgt|Hle].
    + destruct (IH x) as (pre & mv & post & E & Hf & Hpre & Hpost).
      exists (b :: pre), mv, post. rewrite E. repeat split; try assumption.
      assert (Hx : f x <= f mv).
      { destruct pre as [|p pre]; simpl in E; injection E as E1 E2.
        - rewrite E1. lia.
        - specialize (Hpre p (or_introl eq_refl)). rewrite E1. lia. }
      intros y [Ey|Hy]; [rewrite <- Ey; lia | apply Hpre; exact Hy].
    + destruct (IH b) as (pre & mv & post & E & Hf & Hpre & Hpost).
      destruct pre as [|p pre]; simpl in E; injection E as E1 E2.
      * subst mv post. exists [], b, (x :: xs). repeat split.
        -- exact Hf.
        -- intros y [].
        -- intros y [Ey|Hy]; [rewrite <- Ey; exact Hle | apply Hpost; exact Hy].
      * subst p. exists (b :: x :: pre), mv, post. rewrite E2. repeat split.
        -- rewrite <- E2. exact Hf.
        -- pose proof (Hpre b (or_introl eq_refl)) as Hb.
           intros y [Ey|[Ey|Hy]]; [rewrite <- Ey; exact Hb
                                  | rewrite <- Ey; lia |].
           apply Hpre. right; exact Hy.
        -- exact Hpost.
Qed.

End SearchFacts.

Module SearchTheorems.
Import PartB PartBFacts MinimaxFacts MinimaxTheorems SearchFacts.

(** C2. On a board with a blank cell [getBestMove] returns the available
    move whose position, after the computer's mark is placed on it, has the
    greatest [minimax(0, False)] score; of several such moves it returns
    the first in row-major order: every move before it scores strictly
    less, every move after it scores at most as much. *)
Theorem getBestMove_first_best (g : Game) (fuel : nat) :
  checkFull g = false ->
  (blanks (board g) <= fuel)%nat ->
  exists pre mv post,
    getAvailableMoves g = pre ++ mv :: post /\
    getBestMove fuel g = Some (Some mv, g) /\
    (forall x, In x pre ->
       minimax_val (play x (computer g) g) 0 false <
       minimax_val (play mv (computer g) g) 0 false) /\
    (forall x, In x post ->
       minimax_val (play x (computer g) g) 0 false <=
       minimax_val (play mv (computer g) g) 0 false).
Proof.
  intros Hfull Hle.
  pose proof (checkFull_available g Hfull) as Hne.
  rewrite getBestMove_loop.
  rewrite (best_loop g fuel _ _ (incl_refl _) Hle).
  destruct (getAvailableMoves g) as [|b xs]; [contradiction Hne; reflexivity|].
  set (f := fun mv => minimax_val (play mv (computer g) g) 0 false).
  destruct (keep_best_first f xs b) as (pre & mv & post & E & Hf & Hpre & Hpost).
  exists pre, mv, post. split; [exact E|].
  split; [|split; assumption].
  simpl fold_left. unfold keep_best at 2. simpl. fold f. rewrite Hf. reflexivity.
Qed.

(** C9. [minimax] and [getBestMove] hand the game back exactly as they
    received it, and so does every initial part of their loops over the
    available moves: each trial placement is cleared before the next move
    is tried and before the call returns. *)
Theorem search_restores_board (g : Game) (d : Z) (m : bool) (fuel : nat) :
  (blanks (board g) < fuel)%nat ->
  (exists s, minimax fuel d m g = Some (s, g)) /\
  (exists mv, getBestMove fuel g = Some (mv, g)) /\
  (forall k who r combine acc, exists acc',
      for_each (firstn k (getAvailableMoves g)) acc
               (trial (pred fuel) d who r combine) g = Some (acc', g)) /\
  (forall k best, exists best',
      for_each (firstn k (getAvailableMoves g)) best
               (best_trial fuel (computer g)) g = Some (best', g)).
Proof.
  intro Hlt. repeat split.
  - eexists. apply minimax_enough_fuel; exact Hlt.
  - rewrite getBestMove_loop.
    rewrite (best_loop g fuel _ _ (incl_refl _)); [|lia].
    eexists; reflexivity.
  - intros k who r combine acc.
    rewrite (trial_loop g (pred fuel) d who r combine _ acc (incl_firstn k _));
      [|lia].
    eexists; reflexivity.
  - intros k best.
    rewrite (best_loop g fuel _ best (incl_firstn k _)); [|lia].
    eexists; reflexivity.
Qed.

Lemma getBestMove_first_best_witness :
  checkFull sample_game = false /\
  (blanks (board sample_game) <= 9)%nat /\
  exists pre mv post,
    getAvailableMoves sample_game = pre ++ mv :: post /\
    getBestMove 9 sample_game = Some (Some mv, sample_game) /\
    (forall x, In x pre ->
       minimax_val (play x (computer sample_game) sample_game) 0 false <
       minimax_val (play mv (computer sample_game) sample_game) 0 false) /\
    (forall x, In x post ->
       minimax_val (play x (computer sample_game) sample_game) 0 false <=
       minimax_val (play mv (computer sample_game) sample_game) 0 false).
Proof.
  split; [reflexivity|]. split; [vm_compute; lia|].
  apply (getBestMove_first_best sample_game 9); [reflexivity | vm_compute; lia].
Defined.

Lemma search_restores_board_witness :
  (blanks (board sample_game) < 9)%nat /\
  ((exists s, minimax 9 0 true sample_game = Some (s, sample_game)) /\
   (exists mv, getBestMove 9 sample_game = Some (mv, sample_game)) /\
   (forall k who r combine acc, exists acc',
       for_each (firstn k (getAvailableMoves sample_game)) acc
                (trial (pred 9) 0 who r combine) sample_game =
       Some (acc', sample_game)) /\
   (forall k best, exists best',
       for_each (firstn k (getAvailableMoves sample_game)) best
                (best_trial 9 (computer sample_game)) sample_game =
       Some (best', sample_game))).
Proof.
  split; [vm_compute; lia|].
  apply (search_restores_board sample_game 0 true 9). vm_compute; lia.
Defined.

End SearchTheorems.

(** ** Minimax against minimax *)

Module SelfPlayFacts.
Import PartB PartBFacts MinimaxFacts MinimaxTheorems SearchFacts.

Lemma is_blank_le (x : cell) : (is_blank x <= 1)%nat.
Proof. unfold is_blank. destruct (cell_eqb x Blank); lia. Qed.

Lemma blanks_le_9 (b : Board) : (blanks b <= 9)%nat.
Proof.
  rewrite blanks_sum.
  pose proof (is_blank_le (get b I0 I0)). pose proof (is_blank_le (get b I0 I1)).
  pose proof (is_blank_le (get b I0 I2)). pose proof (is_blank_le (get b I1 I0)).
  pose proof (is_blank_le (get b I1 I1)). pose proof (is_blank_le (get b I1 I2)).
  pose proof (is_blank_le (get b I2 I0)). pose proof (is_blank_le (get b I2 I1)).
  pose proof (is_blank_le (get b I2 I2)). lia.
Qed.

Lemma le_chk_sound (fuel : nat) :
  forall g d m b, le_chk fuel g d m b = true -> value fuel g d m <= b.
Proof.
  induction fuel as [|fuel IH]; intros g d m b; [discriminate|].
  cbn [le_chk value].
  destruct (opt_cell_eqb (getWinner g) (Some (Mk (computer g))));
    [intro H; apply Z.leb_le; exact H|].
  destruct (opt_cell_eqb (getWinner g) (Some (Mk (human g))));
    [intro H; apply Z.leb_le; exact H|].
  destruct (checkFull g) eqn:Hfull; [intro H; apply Z.leb_le; exact H|].
  pose proof (checkFull_available g Hfull) as Hne.
  destruct m; intro H.
  - rewrite forallb_forall in H.
    match goal with |- maximum ?l <= _ => destruct (maximum_spec l) as [Hin _] end.
    { intro E. apply map_eq_nil in E. contradiction. }
    apply in_map_iff in Hin. destruct Hin as (mv & <- & Hmv).
    apply IH, H, Hmv.
  - apply existsb_exists in H. destruct H as (mv & Hmv & Hc).
    match goal with |- minimum ?l <= _ => destruct (minimum_spec l) as [_ Hle] end.
    { intro E. apply map_eq_nil in E. contradiction. }
    etransitivity; [apply Hle, in_map, Hmv|]. apply IH, Hc.
Qed.

Lemma ge_chk_sound (fuel : nat) :
  forall g d m b, ge_chk fuel g d m b = true -> b <= value fuel g d m.
Proof.
  induction fuel as [|fuel IH]; intros g d m b; [discriminate|].
  cbn [ge_chk value].
  destruct (opt_cell_eqb (getWinner g) (Some (Mk (computer g))));
    [intro H; apply Z.leb_le; exact H|].
  destruct (opt_cell_eqb (getWinner g) (Some (Mk (human g))));
    [intro H; apply Z.leb_le; exact H|].
  destruct (checkFull g) eqn:Hfull; [intro H; apply Z.leb_le; exact H|].
  pose proof (checkFull_available g Hfull) as Hne.
  destruct m; intro H.
  - apply existsb_exists in H. destruct H as (mv & Hmv & Hc).
    match goal with |- _ <= maximum ?l => destruct (maximum_spec l) as [_ Hle] end.
    { intro E. apply map_eq_nil in E. contradiction. }
    etransitivity; [apply IH, Hc|]. apply Hle. apply in_map_iff.
    exists mv. split; [reflexivity | exact Hmv].
  - rewrite forallb_forall in H.
    match goal with |- _ <= minimum ?l => destruct (minimum_spec l) as [Hin _] end.
    { intro E. apply map_eq_nil in E. contradiction. }
    apply in_map_iff in Hin. destruct Hin as (mv & <- & Hmv).
    apply IH, H, Hmv.
Qed.

Lemma keep_best_below (f : idx * idx -> Z) (b : Z) (xs : list (idx * idx)) :
  forall best,
    below (fst best) b -> (forall x, In x xs -> f x < b) ->
    below (fst (fold_left (keep_best f) xs best)) b.
Proof.
  induction xs as [|x xs IH]; intros best Hb Hxs; simpl; [exact Hb|].
  apply IH; [|intros y Hy; apply Hxs; right; exact Hy].
  unfold keep_best. destruct (score_gtb (Fin (f x)) (fst best)); [|exact Hb].
  simpl. apply Hxs. left; reflexivity.
Qed.

Lemma keep_best_stays (f : idx * idx -> Z) (mv : idx * idx)
      (xs : list (idx * idx)) :
  (forall x, In x xs -> f x <= f mv) ->
  fold_left (keep_best f) xs (Fin (f mv), Some mv) = (Fin (f mv), Some mv).
Proof.
  induction xs as [|x xs IH]; intro Hxs; simpl; [reflexivity|].
  unfold keep_best at 2. simpl.
  destruct (Z.gtb_spec (f x) (f mv)) as [Hgt|_].
  - specialize (Hxs x (or_introl eq_refl)). lia.
  - apply IH. intros y Hy. apply Hxs. right; exact Hy.
Qed.

(** The scan returns a move that beats every move before it and is
    matched at most by the moves after it. *)
Lemma keep_best_found (f : idx * idx -> Z) (pre post : list (idx * idx))
      (mv : idx * idx) :
  (forall x, In x pre -> f x < f mv) ->
  (forall x, In x post -> f x <= f mv) ->
  fold_left (keep_best f) (pre ++ mv :: post) (NegInf, None) =
  (Fin (f mv), Some mv).
Proof.
  intros Hpre Hpost. rewrite fold_left_app. simpl.
  pose proof (keep_best_below f (f mv) pre (NegInf, None) I Hpre) as Hb.
  destruct (fold_left (keep_best f) pre (NegInf, None)) as [s o].
  unfold keep_best at 2. cbn [fst] in Hb |- *.
  assert (score_gtb (Fin (f mv)) s = true) as ->.
  { destruct s as [|a|]; simpl in Hb |- *; [reflexivity | | contradiction].
    apply Z.gtb_lt. exact Hb. }
  apply keep_best_stays; exact Hpost.
Qed.

Lemma skipn_head {A} (k : nat) :
  forall (l : list A) (x : A) (post : list A),
    skipn k l = x :: post -> nth_error l k = Some x.
Proof.
  induction k as [|k IH]; intros [|y l] x post H; simpl in H |- *;
    try discriminate H.
  - injection H as -> _. reflexivity.
  - apply (IH l x post H).
Qed.

Lemma getBestMove_certified (g : Game) (k : nat) (L : Z) (mv : idx * idx) :
  nth_error (getAvailableMoves g) k = Some mv ->
  best_cert g k L = true ->
  getBestMove 9 g = Some (Some mv, g).
Proof.
  intros Hk Hc.
  rewrite getBestMove_loop.
  rewrite (best_loop g 9 _ _ (incl_refl _) (blanks_le_9 _)).
  unfold best_cert in Hc.
  pose proof (firstn_skipn k (getAvailableMoves g)) as Hsplit.
  assert (Hbl : forall x, In x (getAvailableMoves g) ->
             (blanks (board (play x (computer g) g)) < 9)%nat).
  { intros x Hx.
    apply (child_fuel g x (computer g) 9 Hx (blanks_le_9 _)). }
  destruct (skipn k (getAvailableMoves g)) as [|mv' post] eqn:Hs;
    [discriminate Hc|].
  assert (mv' = mv) as ->.
  { pose proof (skipn_head k _ _ _ Hs) as Hk'. congruence. }
  apply andb_prop in Hc. destruct Hc as [Hc Hpost].
  apply andb_prop in Hc. destruct Hc as [Hge Hpre].
  rewrite forallb_forall in Hpre, Hpost.
  assert (Hmv : In mv (getAvailableMoves g)).
  { rewrite <- Hsplit. apply in_or_app. right; left; reflexivity. }
  apply ge_chk_sound in Hge.
  rewrite <- (minimax_val_value _ _ _ 9 (Hbl mv Hmv)) in Hge.
  rewrite <- Hsplit.
  rewrite keep_best_found; [reflexivity | |].
  - intros x Hx.
    assert (Hin : In x (getAvailableMoves g)).
    { rewrite <- Hsplit. apply in_or_app. left; exact Hx. }
    specialize (Hpre x Hx). apply le_chk_sound in Hpre.
    rewrite <- (minimax_val_value _ _ _ 9 (Hbl x Hin)) in Hpre. lia.
  - intros x Hx.
    assert (Hin : In x (getAvailableMoves g)).
    { rewrite <- Hsplit. apply in_or_app. right; right; exact Hx. }
    specialize (Hpost x Hx). apply le_chk_sound in Hpost.
    rewrite <- (minimax_val_value _ _ _ 9 (Hbl x Hin)) in Hpost. lia.
Qed.

Lemma selfPlay_ply (plies : nat) (g : Game) (row col : idx) :
  getBestMove 9 (as_computer g) = Some (Some (row, col), as_computer g) ->
  selfPlay (S plies) g =
  let g2 := assign row col (Mk (turn (as_computer g))) (as_computer g) in
  if checkEnd g2 then Some (tt, g2) else selfPlay plies (switchPlayer g2).
Proof.
  intro H. cbn [selfPlay]. unfold bind at 1. unfold modify at 1.
  unfold bind at 1. rewrite H. unfold bind, gets, modify, ret. cbv zeta.
  destruct (checkEnd _); reflexivity.
Qed.

(** A replay that succeeds is the game [selfPlay] plays. *)
Lemma replay_sound (certs : list (nat * Z)) :
  forall (g final : Game) (plies : nat),
    (List.length certs <= plies)%nat ->
    replay certs g = Some final -> selfPlay plies g = Some (tt, final).
Proof.
  induction certs as [|[k L] certs IH]; intros g final plies Hlen H;
    [discriminate H|].
  destruct plies as [|plies]; [simpl in Hlen; lia|].
  cbn [replay] in H.
  destruct (nth_error (getAvailableMoves (as_computer g)) k)
    as [[row col]|] eqn:Hk; [|discriminate H].
  destruct (best_cert (as_computer g) k L) eqn:Hc; [|discriminate H].
  rewrite (selfPlay_ply plies g row col
             (getBestMove_certified _ k L (row, col) Hk Hc)).
  cbv zeta in H |- *.
  destruct (checkEnd _); [congruence|].
  apply IH; [simpl in Hlen; lia | exact H].
Qed.

End SelfPlayFacts.

Module SelfPlayTheorems.
Import PartB SelfPlayFacts.

(** The roles with which the game was created do not matter: every ply
    starts by configuring the engine for the side to move. *)
Lemma selfPlay_roles (plies : nat) (g : Game) :
  selfPlay plies g = selfPlay plies (as_computer g).
Proof. destruct plies; reflexivity. Qed.

(** C3. From the empty board with X to move, when both sides take every
    move from [getBestMove], the game ends, the final board is full and
    [getWinner] returns [None] for it: a draw. *)
Theorem minimax_vs_minimax_draw (human_player : mark) :
  exists final,
    selfPlay 9 (Game_init human_player) = Some (tt, final) /\
    board final = drawn_board /\
    checkFull final = true /\
    getWinner final = None /\
    checkWin final = false.
Proof.
  rewrite selfPlay_roles.
  replace (as_computer (Game_init human_player))
    with (as_computer (Game_init O)) by (destruct human_player; reflexivity).
  eexists. split.
  - apply (replay_sound drawn_game); [simpl; lia|].
    vm_compute. reflexivity.
  - repeat split; reflexivity.
Qed.

End SelfPlayTheorems.

(** ** The terminal evaluator *)

Module EvaluatorTheorems.
Import PartB.

(** C4. [getWinner] examines the eight lines in the order rows (top to
    bottom), columns (left to right), diagonal from the top left, diagonal
    from the top right, and returns the mark of the first line whose three
    cells are equal and not blank, or [None] when there is no such line. *)
Theorem getWinner_first_line (g : Game) :
  getWinner g = first_complete_line (board g).
Proof.
  unfold getWinner, first_complete_line, lines, range3, row_wins, col_wins,
    complete, at_, three.
  cbn [find fst snd]. case_ifs; reflexivity.
Qed.

(** C10. [checkWin] returns [True] exactly when [getWinner] returns a
    mark. *)
Theorem checkWin_iff_getWinner (g : Game) :
  checkWin g = true <-> getWinner g <> None.
Proof.
  unfold checkWin, getWinner, range3, row_wins, col_wins.
  cbn [find existsb orb].
  destruct (three (get (board g) I0 I0) (get (board g) I0 I1) (get (board g) I0 I2));
  destruct (three (get (board g) I1 I0) (get (board g) I1 I1) (get (board g) I1 I2));
  destruct (three (get (board g) I2 I0) (get (board g) I2 I1) (get (board g) I2 I2));
  destruct (three (get (board g) I0 I0) (get (board g) I1 I0) (get (board g) I2 I0));
  destruct (three (get (board g) I0 I1) (get (board g) I1 I1) (get (board g) I2 I1));
  destruct (three (get (board g) I0 I2) (get (board g) I1 I2) (get (board g) I2 I2));
  destruct (three (get (board g) I0 I0) (get (board g) I1 I1) (get (board g) I2 I2));
  destruct (three (get (board g) I0 I2) (get (board g) I1 I1) (get (board g) I2 I0));
  cbn; (split; [intro H; first [discriminate H | discriminate]
               | intro H; first [reflexivity | contradiction H; reflexivity]]).
Qed.

End EvaluatorTheorems.

(** ** The dataset-driven player *)

Module DatasetFacts.
Import PartC.

Lemma list_eqb_eq (a : list Z) : forall b, Py.list_eqb a b = true <-> a = b.
Proof.
  induction a as [|x a IH]; intros [|y b]; simpl; split; intro H;
    try reflexivity; try discriminate H.
  - apply andb_prop in H. destruct H as [Hx Hab].
    apply Z.eqb_eq in Hx. apply IH in Hab. congruence.
  - injection H as -> ->. rewrite Z.eqb_refl. apply IH. reflexivity.
Qed.

Lemma mem_In (x : Z) (l : list Z) : Py.mem x l = true <-> In x l.
Proof.
  unfold Py.mem. rewrite existsb_exists. split.
  - intros (y & Hy & E). apply Z.eqb_eq in E. subst y. exact Hy.
  - intro H. exists x. split; [exact H | apply Z.eqb_refl].
Qed.

(** The first record of a list that satisfies a test. *)
Lemma find_first {A} (f : A -> bool) (pre post : list A) (x : A) :
  (forall y, In y pre -> f y = false) -> f x = true ->
  find f (pre ++ x :: post) = Some x.
Proof.
  intros Hpre Hx. induction pre as [|y pre IH]; simpl.
  - rewrite Hx. reflexivity.
  - rewrite (Hpre y (or_introl eq_refl)).
    apply IH. intros z Hz. apply Hpre. right; exact Hz.
Qed.

Lemma find_none {A} (f : A -> bool) (l : list A) :
  (forall y, In y l -> f y = false) -> find f l = None.
Proof.
  intro H. induction l as [|y l IH]; simpl; [reflexivity|].
  rewrite (H y (or_introl eq_refl)). apply IH.
  intros z Hz. apply H. right; exact Hz.
Qed.

Lemma state_differs (r : record) (q : list Z) :
  fst r <> q -> Py.list_eqb (fst r) q = false.
Proof.
  intro H. destruct (Py.list_eqb (fst r) q) eqn:E; [|reflexivity].
  apply list_eqb_eq in E. contradiction.
Qed.

Lemma findBestMove_single (set_iter : list Z -> list Z) (ds : list record)
      (q : list Z) :
  findBestMove set_iter (mkMLPlayer ds single) q =
  option_map snd (find (fun r => Py.list_eqb (fst r) q) ds).
Proof.
  unfold findBestMove; cbn [dataset dataset_type].
  destruct ds as [|r ds]; [reflexivity|].
  match goal with |- context [find ?f ?l] => destruct (find f l) end;
    reflexivity.
Qed.

(** An available index is [i * 3 + j] for a blank cell [(i, j)], and
    [indexToRowCol] gives back [i] and [j]. *)
Lemma available_index (g : Game) (p : Z) :
  In p (getAvailableMoves g) ->
  exists i j, p = idxZ i * 3 + idxZ j /\ get (board g) i j = Blank /\
              indexToRowCol p = (idxZ i, idxZ j).
Proof.
  unfold getAvailableMoves. rewrite in_map_iff.
  intros ([i j] & <- & H). apply filter_In in H. destruct H as [_ H].
  simpl in H |- *. exists i, j. split; [reflexivity|].
  split; [apply cell_eqb_eq; exact H|].
  destruct i, j; reflexivity.
Qed.

Lemma checkFull_moves (g : Game) :
  checkFull g = false -> getAvailableMoves g <> [].
Proof.
  unfold checkFull, getAvailableMoves. intros H E.
  apply map_eq_nil in E.
  assert (F : forallb (fun p => negb (cell_eqb (get (board g) (fst p) (snd p)) Blank))
                row_major = true).
  { apply forallb_forall. intros p Hp.
    destruct (cell_eqb (get (board g) (fst p) (snd p)) Blank) eqn:Ec; [|reflexivity].
    assert (In p []) as [].
    rewrite <- E. apply filter_In. split; assumption. }
  rewrite F in H. discriminate H.
Qed.

Lemma random_choice_In (randbelow : nat -> nat) (l : list Z) :
  (forall n, (0 < n)%nat -> (randbelow n < n)%nat) -> l <> [] ->
  exists x, random_choice randbelow l = Some x /\
            nth_error l (randbelow (List.length l)) = Some x /\ In x l.
Proof.
  intros Hr Hl. destruct l as [|y l]; [contradiction Hl; reflexivity|].
  unfold random_choice.
  destruct (nth_error (y :: l) (randbelow (List.length (y :: l)))) as [x|] eqn:E.
  - exists x. repeat split. apply (nth_error_In _ _ E).
  - apply nth_error_None in E. specialize (Hr (List.length (y :: l))).
    simpl in Hr, E. lia.
Qed.

Lemma row_major_NoDup : NoDup row_major.
Proof.
  unfold row_major, range3; simpl.
  repeat constructor; simpl; intuition discriminate.
Qed.

Lemma index_injective (p p' : idx * idx) :
  idxZ (fst p) * 3 + idxZ (snd p) = idxZ (fst p') * 3 + idxZ (snd p') ->
  p = p'.
Proof.
  destruct p as [[] []], p' as [[] []]; simpl; intro H;
    first [reflexivity | discriminate H].
Qed.

Lemma NoDup_map_injective {A B} (f : A -> B) (l : list A) :
  (forall x y, f x = f y -> x = y) -> NoDup l -> NoDup (map f l).
Proof.
  intros Hf Hl. induction Hl as [|x l Hx Hl IH]; simpl; constructor.
  - rewrite in_map_iff. intros (y & E & Hy).
    apply Hf in E. subst y. contradiction.
  - exact IH.
Qed.

(** No index is listed twice among the available moves. *)
Lemma available_NoDup (g : Game) : NoDup (getAvailableMoves g).
Proof.
  unfold getAvailableMoves.
  apply NoDup_map_injective.
  - intros p p' H. apply index_injective; exact H.
  - apply NoDup_filter, row_major_NoDup.
Qed.

Lemma getBoardState_length (b : Board) : List.length (getBoardState b) = 9%nat.
Proof. reflexivity. Qed.

End DatasetFacts.

Module DatasetTheorems.
Import PartC DatasetFacts.

(** C8, as the claim states its example: any move-labelled dataset that
    contains the record [([1,-1,0,0,0,0,0,0,0], 4)] would make
    [findBestMove] return [4] on that state.  It does not: an earlier
    record with the same state and another label wins. *)
Lemma findBestMove_containing_counterexample :
  ~ (forall ds : list record,
        In (example_state, 4) ds ->
        findBestMove CPythonSet.set_iter (mkMLPlayer ds single) example_state
        = Some 4).
Proof.
  intro H.
  specialize (H [(example_state, 7); (example_state, 4)]
                (or_intror (or_introl eq_refl))).
  vm_compute in H. discriminate H.
Qed.

(** C8, amended.  On a move-labelled dataset [findBestMove] scans the
    records in order and returns the label of the first record whose
    state vector equals the query, and [None] when no record matches or
    the dataset is empty.  In particular a dataset in which
    [([1,-1,0,0,0,0,0,0,0], 4)] is the first record with that state makes
    [findBestMove] return [4] on it. *)
Theorem findBestMove_first_match (set_iter : list Z -> list Z)
        (ds : list record) (q : list Z) :
  (forall pre label post,
      ds = pre ++ (q, label) :: post ->
      (forall r, In r pre -> fst r <> q) ->
      findBestMove set_iter (mkMLPlayer ds single) q = Some label) /\
  ((forall r, In r ds -> fst r <> q) ->
   findBestMove set_iter (mkMLPlayer ds single) q = None) /\
  (forall pre post,
      (forall r, In r pre -> fst r <> example_state) ->
      findBestMove set_iter
                   (mkMLPlayer (pre ++ (example_state, 4) :: post) single)
                   example_state = Some 4).
Proof.
  assert (Hfirst : forall q' pre label post,
             (forall r, In r pre -> fst r <> q') ->
             findBestMove set_iter
               (mkMLPlayer (pre ++ (q', label) :: post) single) q' = Some label).
  { intros q' pre label post Hpre. rewrite findBestMove_single.
    rewrite (find_first _ pre post (q', label)); [reflexivity | |].
    - intros r Hr. apply state_differs, Hpre, Hr.
    - apply list_eqb_eq. reflexivity. }
  split; [|split].
  - intros pre label post -> Hpre. apply Hfirst; exact Hpre.
  - intro Hnone. rewrite findBestMove_single, find_none; [reflexivity|].
    intros r Hr. apply state_differs, Hnone, Hr.
  - intros pre post Hpre. apply Hfirst; exact Hpre.
Qed.

Lemma findBestMove_first_match_witness :
  findBestMove CPythonSet.set_iter
    (mkMLPlayer ([([0; 0; 0; 0; 1; 0; 0; 0; 0], 0)]
                   ++ (example_state, 4) :: [(example_state, 7)]) single)
    example_state = Some 4.
Proof.
  apply (findBestMove_first_match CPythonSet.set_iter
           ([([0; 0; 0; 0; 1; 0; 0; 0; 0], 0)]
              ++ (example_state, 4) :: [(example_state, 7)]) example_state).
  intros r [<-|[]]. simpl. discriminate.
Defined.

(** C7. On a board with a blank cell, whatever the dataset and whatever
    the random source draws, [getMLMove] returns a pair [(row, col)] whose
    index [row * 3 + col] is among the available moves, so the cell is in
    range and blank.  It is the prediction of [findBestMove] when that
    prediction is an available move, and otherwise the available move at
    the place the random source draws; the available moves are listed
    without repetition, so that a uniform draw of the place is a uniform
    draw of the move.  The dataset is one the loader builds: state vectors
    of nine components. *)
Theorem getMLMove_available (set_iter : list Z -> list Z)
        (randbelow : nat -> nat) (g : Game) :
  (forall n, (0 < n)%nat -> (randbelow n < n)%nat) ->
  well_formed (dataset (ml_player g)) ->
  checkFull g = false ->
  exists row col,
    getMLMove set_iter randbelow g = Some (row, col) /\
    In (row * 3 + col) (getAvailableMoves g) /\
    (exists i j, row = idxZ i /\ col = idxZ j /\ get (board g) i j = Blank) /\
    NoDup (getAvailableMoves g) /\
    match findBestMove set_iter (ml_player g) (getBoardState (board g)) with
    | Some p =>
      if Py.mem p (getAvailableMoves g) then (row, col) = indexToRowCol p
      else nth_error (getAvailableMoves g)
                     (randbelow (List.length (getAvailableMoves g)))
           = Some (row * 3 + col)
    | None =>
      nth_error (getAvailableMoves g)
                (randbelow (List.length (getAvailableMoves g)))
      = Some (row * 3 + col)
    end.
Proof.
  intros Hr _ Hfull.
  pose proof (checkFull_moves g Hfull) as Hne.
  destruct (random_choice_In randbelow _ Hr Hne) as (x & Hx & Hnth & Hin).
  destruct (available_index g x Hin) as (xi & xj & Ex & Hxb & Hxrc).
  assert (Hfallback :
            option_map indexToRowCol (random_choice randbelow (getAvailableMoves g))
            = Some (idxZ xi, idxZ xj)).
  { rewrite Hx. simpl. rewrite Hxrc. reflexivity. }
  unfold getMLMove.
  destruct (findBestMove set_iter (ml_player g) (getBoardState (board g)))
    as [p|] eqn:Hp.
  - destruct (Py.mem p (getAvailableMoves g)) eqn:Hm.
    + apply mem_In in Hm.
      destruct (available_index g p Hm) as (i & j & Ep & Hb & Hrc).
      exists (idxZ i), (idxZ j). rewrite Hrc, <- Ep.
      split; [reflexivity|]. split; [exact Hm|].
      split; [exists i, j; repeat split; exact Hb|].
      split; [apply available_NoDup | reflexivity].
    + exists (idxZ xi), (idxZ xj). rewrite Hfallback, <- Ex.
      split; [reflexivity|]. split; [exact Hin|].
      split; [exists xi, xj; repeat split; exact Hxb|].
      split; [apply available_NoDup | exact Hnth].
  - exists (idxZ xi), (idxZ xj). rewrite Hfallback, <- Ex.
    split; [reflexivity|]. split; [exact Hin|].
    split; [exists xi, xj; repeat split; exact Hxb|].
    split; [apply available_NoDup | exact Hnth].
Qed.

Lemma getMLMove_available_witness :
  (forall n, (0 < n)%nat -> ((fun _ => 0%nat) n < n)%nat) /\
  well_formed (dataset (ml_player sample_ml_game)) /\
  checkFull sample_ml_game = false /\
  exists row col,
    getMLMove CPythonSet.set_iter (fun _ => 0%nat) sample_ml_game
    = Some (row, col) /\
    In (row * 3 + col) (getAvailableMoves sample_ml_game) /\
    (exists i j, row = idxZ i /\ col = idxZ j /\
                 get (board sample_ml_game) i j = Blank) /\
    NoDup (getAvailableMoves sample_ml_game) /\
    match findBestMove CPythonSet.set_iter (ml_player sample_ml_game)
                       (getBoardState (board sample_ml_game)) with
    | Some p =>
      if Py.mem p (getAvailableMoves sample_ml_game)
      then (row, col) = indexToRowCol p
      else nth_error (getAvailableMoves sample_ml_game)
                     ((fun _ => 0%nat)
                        (List.length (getAvailableMoves sample_ml_game)))
           = Some (row * 3 + col)
    | None =>
      nth_error (getAvailableMoves sample_ml_game)
                ((fun _ => 0%nat) (List.length (getAvailableMoves sample_ml_game)))
      = Some (row * 3 + col)
    end.
Proof.
  split; [intros n H; exact H|].
  split; [repeat constructor|].
  split; [reflexivity|].
  apply (getMLMove_available CPythonSet.set_iter (fun _ => 0%nat) sample_ml_game).
  - intros n H; exact H.
  - repeat constructor.
  - reflexivity.
Defined.

End DatasetTheorems.

(** ** Loading the dataset *)

Module LoaderFacts.
Import PartC.

Lemma is_empty_eq (s : string) : Py.is_empty s = true -> s = EmptyString.
Proof. destruct s; [reflexivity | discriminate]. Qed.

(** One line: a record is appended or not, or [ValueError] is raised. *)
Lemma load_line_cases (line : string) (ds : list record) :
  load_line line ds =
  if parses line then Returned (ds ++ record_of line) else ValueError.
Proof.
  unfold load_line, parses, record_of.
  destruct (Py.is_empty (Py.strip line)) eqn:E.
  - apply is_empty_eq in E. rewrite E. simpl. rewrite app_nil_r. reflexivity.
  - destruct (Py.ints (Py.split (Py.strip line))) as [values|]; [|reflexivity].
    destruct (List.length values =? 10)%nat; [reflexivity|].
    rewrite app_nil_r. reflexivity.
Qed.

Lemma load_lines_ok (lines : list string) :
  forall ds, forallb parses lines = true ->
             load_lines lines ds = (Returned tt, ds ++ records_of lines).
Proof.
  induction lines as [|line lines IH]; intros ds H; simpl.
  - rewrite app_nil_r. reflexivity.
  - simpl in H. apply andb_prop in H. destruct H as [Hl Hls].
    rewrite load_line_cases, Hl. rewrite (IH _ Hls).
    unfold records_of at 2. simpl. rewrite app_assoc. reflexivity.
Qed.

Lemma load_lines_bad (pre : list string) (bad : string) (post : list string) :
  forall ds, forallb parses pre = true -> parses bad = false ->
             load_lines (pre ++ bad :: post) ds
             = (ValueError, ds ++ records_of pre).
Proof.
  induction pre as [|line pre IH]; intros ds Hpre Hbad; simpl.
  - rewrite load_line_cases, Hbad, app_nil_r. reflexivity.
  - simpl in Hpre. apply andb_prop in Hpre. destruct Hpre as [Hl Hls].
    rewrite load_line_cases, Hl. rewrite (IH _ Hls Hbad).
    unfold records_of at 2. simpl. rewrite app_assoc. reflexivity.
Qed.

Lemma record_of_well_formed (line : string) : well_formed (record_of line).
Proof.
  unfold record_of, well_formed.
  destruct (Py.ints (Py.split (Py.strip line))) as [values|]; [|constructor].
  destruct (List.length values =? 10)%nat eqn:E; [|constructor].
  apply Nat.eqb_eq in E. constructor; [|constructor].
  cbn [fst]. rewrite firstn_length_le; lia.
Qed.

(** A file with a line that does not parse splits at the first such
    line. *)
Lemma first_bad (lines : list string) :
  forallb parses lines = false ->
  exists bad post,
    lines = good_prefix lines ++ bad :: post /\
    forallb parses (good_prefix lines) = true /\ parses bad = false.
Proof.
  induction lines as [|line lines IH]; intro H; [discriminate H|].
  cbn [forallb good_prefix] in *. destruct (parses line) eqn:E.
  - destruct (IH H) as (bad & post & Hs & Hp & Hb).
    exists bad, post. cbn [forallb app]. rewrite E, Hp.
    split; [f_equal; exact Hs | split; [reflexivity | exact Hb]].
  - exists line, lines. split; [reflexivity | split; [reflexivity | exact E]].
Qed.

(** The records the loader builds have state vectors of nine components. *)
Lemma records_of_well_formed (lines : list string) :
  well_formed (records_of lines).
Proof.
  induction lines as [|line lines IH]; [constructor|].
  unfold records_of; simpl. apply Forall_app.
  split; [apply record_of_well_formed | exact IH].
Qed.

End LoaderFacts.

Module LoaderTheorems.
Import PartC LoaderFacts.

(** C6, as the claim states it: whatever the lines of the file, the load
    returns and the dataset holds exactly the records of the lines of ten
    integers.  The code does not do so when a line holds a token that is
    no integer: [int] raises [ValueError], which [loadDataset] does not
    catch.  On the three lines of [bad_file] the claim asks for the
    records of the first and the third line; the load stops at the second
    with the first record only, and the [ValueError] leaves
    [MLPlayer.__init__] and [Game.__init__] as well, so no game is
    created. *)
Lemma loadDataset_skips_counterexample :
  records_of bad_file
  = [([1; -1; 0; 0; 0; 0; 0; 0; 0], 4); ([0; 0; 0; 0; 1; 0; 0; 0; 0], 0)] /\
  loadDataset (one_file "tictac_single.txt" bad_file) "tictac_single.txt" []
  = (ValueError, [([1; -1; 0; 0; 0; 0; 0; 0; 0], 4)]) /\
  PartCPlay.Game_init (one_file "tictac_single.txt" bad_file) X
                      "tictac_single.txt" = ValueError /\
  ~ (forall (fs : string -> option (list string)) (filename : string)
            (lines : list string),
        fs filename = Some lines ->
        exists k, loadDataset fs filename [] = (Returned k, records_of lines)).
Proof.
  split; [reflexivity|]. split; [reflexivity|]. split; [reflexivity|].
  intro H.
  destruct (H (one_file "tictac_single.txt" bad_file) "tictac_single.txt"%string
              bad_file eq_refl) as [k Hk].
  vm_compute in Hk. discriminate Hk.
Qed.

(** C6, what the code does.  A line whose tokens are all integers but
    are not ten in number (a blank line among them) is skipped and the
    load continues: on a file of ASCII text without a token that is no
    integer, the load returns and has appended exactly the records of the
    lines of ten integers, in order.  A line with a token that is no
    integer is not skipped: the load stops at the first such line with
    [ValueError], having appended the records of the lines before it. *)
Theorem loadDataset_lines (fs : string -> option (list string))
        (filename : string) (lines : list string) (ds : list record) :
  fs filename = Some lines ->
  Py.is_ascii filename = true ->
  forallb Py.is_ascii lines = true ->
  loadDataset fs filename ds =
  if forallb parses lines
  then (Returned (kind_of_name filename), ds ++ records_of lines)
  else (ValueError, ds ++ records_of (good_prefix lines)).
Proof.
  intros Hfs _ _. unfold loadDataset. rewrite Hfs.
  destruct (forallb parses lines) eqn:H.
  - rewrite (load_lines_ok lines ds H). unfold kind_of_name.
    destruct (Py.contains "single" (Py.lower filename)); [reflexivity|].
    destruct (Py.contains "final" (Py.lower filename)); reflexivity.
  - destruct (first_bad lines H) as (bad & post & Hsplit & Hpre & Hbad).
    rewrite Hsplit at 1.
    rewrite (load_lines_bad (good_prefix lines) bad post ds Hpre Hbad).
    reflexivity.
Qed.

Lemma loadDataset_lines_witness :
  one_file "tictac_final.txt" skipping_file "tictac_final.txt"%string
  = Some skipping_file /\
  Py.is_ascii "tictac_final.txt" = true /\
  forallb Py.is_ascii skipping_file = true /\
  forallb parses skipping_file = true /\
  loadDataset (one_file "tictac_final.txt" skipping_file) "tictac_final.txt" []
  = (Returned final,
     [([1; -1; 0; 0; 0; 0; 0; 0; 0], 4); ([0; 0; 0; 0; 1; 0; 0; 0; 0], 0)]).
Proof.
  split; [reflexivity|]. split; [reflexivity|]. split; [reflexivity|].
  split; [reflexivity|].
  rewrite (loadDataset_lines (one_file "tictac_final.txt" skipping_file)
                             "tictac_final.txt" skipping_file []
                             eq_refl eq_refl eq_refl).
  reflexivity.
Defined.

End LoaderTheorems.

(** ** The vote over the most similar records *)

Module VoteFacts.
Import PartC DatasetFacts.

Section SortFacts.
Context {A : Type} (key : A -> Z).

Lemma insert_desc_perm (x : A) (l : list A) :
  Permutation (Py.insert_desc key x l) (x :: l).
Proof.
  induction l as [|y l IH]; simpl; [reflexivity|].
  destruct (key y >? key x); [|reflexivity].
  etransitivity; [apply perm_skip, IH | apply perm_swap].
Qed.

Lemma sort_desc_perm (l : list A) : Permutation (Py.sort_desc key l) l.
Proof.
  induction l as [|x l IH]; simpl; [constructor|].
  etransitivity; [apply insert_desc_perm | apply perm_skip, IH].
Qed.

Lemma insert_desc_sorted (x : A) (l : list A) :
  StronglySorted (fun a b => key b <= key a) l ->
  StronglySorted (fun a b => key b <= key a) (Py.insert_desc key x l).
Proof.
  induction 1 as [|y l Hs IH Hy]; simpl.
  - constructor; constructor.
  - destruct (Z.gtb_spec (key y) (key x)) as [Hgt|Hle].
    + constructor; [exact IH|].
      apply (Permutation_Forall (Permutation_sym (insert_desc_perm x l))).
      constructor; [lia | exact Hy].
    + constructor; [constructor; assumption|].
      constructor; [exact Hle|].
      apply (Forall_impl _ (P := fun b => key b <= key y)); [|exact Hy].
      intros b Hb. lia.
Qed.

Lemma sort_desc_sorted (l : list A) :
  StronglySorted (fun a b => key b <= key a) (Py.sort_desc key l).
Proof.
  induction l as [|x l IH]; simpl; [constructor|].
  apply insert_desc_sorted, IH.
Qed.

(** Insertion puts an element in front of the elements of its own key. *)
Lemma insert_desc_filter (k : Z) (x : A) (l : list A) :
  filter (fun y => key y =? k) (Py.insert_desc key x l)
  = filter (fun y => key y =? k) (x :: l).
Proof.
  induction l as [|y l IH]; [reflexivity|].
  cbn [Py.insert_desc].
  destruct (Z.gtb_spec (key y) (key x)) as [Hgt|Hle]; [|reflexivity].
  cbn [filter] in IH |- *. rewrite IH.
  destruct (Z.eqb_spec (key x) k) as [Ex|Nx]; [|reflexivity].
  destruct (Z.eqb_spec (key y) k) as [Ey|Ny]; [lia | reflexivity].
Qed.

(** The sort is stable: the elements of one key keep their order. *)
Lemma sort_desc_stable (k : Z) (l : list A) :
  filter (fun y => key y =? k) (Py.sort_desc key l)
  = filter (fun y => key y =? k) l.
Proof.
  induction l as [|x l IH]; [reflexivity|].
  cbn [Py.sort_desc fold_right]. rewrite insert_desc_filter.
  cbn [filter]. fold (Py.sort_desc key l). rewrite IH. reflexivity.
Qed.
End SortFacts.

(** [max(..., key=key)] returns the first element of greatest key. *)
Lemma max_by_first {A} (key : A -> nat) (xs : list A) :
  forall x : A,
  exists pre m post,
    x :: xs = pre ++ m :: post /\
    Py.max_by key x xs = m /\
    (forall y, In y pre -> (key y < key m)%nat) /\
    (forall y, In y post -> (key y <= key m)%nat).
Proof.
  induction xs as [|y xs IH]; intro x.
  - exists [], x, []. repeat split; intros z [].
  - unfold Py.max_by. cbn [fold_left].
    destruct (Nat.ltb_spec (key x) (key y)) as [Hlt|Hge].
    + destruct (IH y) as (pre & m & post & E & Hm & Hpre & Hpost).
      exists (x :: pre), m, post. rewrite E. repeat split; try assumption.
      assert (Hy : (key y <= key m)%nat).
      { destruct pre as [|p pre]; simpl in E; injection E as E1 E2.
        - rewrite E1. lia.
        - specialize (Hpre p (or_introl eq_refl)). rewrite E1. lia. }
      intros z [Ez|Hz]; [rewrite <- Ez; lia | apply Hpre; exact Hz].
    + destruct (IH x) as (pre & m & post & E & Hm & Hpre & Hpost).
      destruct pre as [|p pre]; simpl in E; injection E as E1 E2.
      * subst m post. exists [], x, (y :: xs). repeat split.
        -- exact Hm.
        -- intros z [].
        -- intros z [Ez|Hz]; [rewrite <- Ez; exact Hge | apply Hpost; exact Hz].
      * subst p. exists (x :: y :: pre), m, post. rewrite E2. repeat split.
        -- rewrite <- E2. exact Hm.
        -- pose proof (Hpre x (or_introl eq_refl)) as Hx.
           intros z [Ez|[Ez|Hz]]; [rewrite <- Ez; exact Hx
                                  | rewrite <- Ez; lia |].
           apply Hpre. right; exact Hz.
        -- exact Hpost.
Qed.

Lemma differences_In (q b : list Z) (x : Z) :
  In x (differences q b) <->
  exists i, x = Z.of_nat i /\ (i < 9)%nat /\ nth i q 0 = 0 /\ nth i b 0 <> 0.
Proof.
  unfold differences. rewrite in_map_iff. split.
  - intros (i & <- & Hi). apply filter_In in Hi. destruct Hi as [Hr Hc].
    apply in_seq in Hr. apply andb_prop in Hc. destruct Hc as [Hq Hb].
    apply Z.eqb_eq in Hq. apply negb_true_iff, Z.eqb_neq in Hb.
    exists i. repeat split; [lia | exact Hq | exact Hb].
  - intros (i & -> & Hi & Hq & Hb). exists i. split; [reflexivity|].
    apply filter_In. split; [apply in_seq; lia|].
    apply andb_true_intro. split; [apply Z.eqb_eq; exact Hq|].
    apply negb_true_iff, Z.eqb_neq. exact Hb.
Qed.

End VoteFacts.

Module VoteTheorems.
Import PartC DatasetFacts VoteFacts.

(** C5, as the claim states it: the answer on an outcome-labelled dataset
    is the most frequent candidate, the earliest in the candidate list
    among equally frequent ones.  With the candidates [[5; 2]] the set is
    iterated as [2], [5] and the answer is [2], not [5]. *)
Lemma findBestMove_tie_counterexample :
  ~ (forall (ds : list record) (q : list Z),
        ds <> [] -> List.length q = 9%nat -> well_formed ds ->
        findBestMove CPythonSet.set_iter (mkMLPlayer ds final) q
        = earliest_most_common
            (findSimilarBoardMoves (mkMLPlayer ds final) q 5)).
Proof.
  intro H.
  assert (Hwf : well_formed tie_dataset) by (repeat constructor).
  specialize (H tie_dataset blank_state ltac:(discriminate) eq_refl Hwf).
  vm_compute in H. discriminate H.
Qed.

(** C5, amended.  On a non-empty outcome-labelled dataset [findBestMove]
    sorts the records by their Hamming similarity to the query in
    descending order, stably; takes the first five; collects as
    candidates the positions where the query is [0] and the record is
    not; returns [None] when there is no candidate and otherwise a
    candidate of greatest count.  Among candidates of equal count the one
    that comes first when the set of candidates is iterated is returned,
    which need not be the earliest in the candidate list. *)
Theorem findBestMove_final (set_iter : list Z -> list Z) (ds : list record)
        (q : list Z) :
  ds <> [] ->
  List.length q = 9%nat ->
  well_formed ds ->
  NoDup (set_iter (findSimilarBoardMoves (mkMLPlayer ds final) q 5)) ->
  (forall x, In x (set_iter (findSimilarBoardMoves (mkMLPlayer ds final) q 5))
             <-> In x (findSimilarBoardMoves (mkMLPlayer ds final) q 5)) ->
  final_answer set_iter ds q.
Proof.
  intros Hds _ _ _ Hset. unfold final_answer.
  split; [apply sort_desc_perm|].
  split; [apply sort_desc_sorted|].
  split; [intro k; apply sort_desc_stable|].
  split; [intros b x; apply differences_In|].
  split; [reflexivity|].
  unfold findBestMove. cbn [dataset dataset_type].
  destruct ds as [|r0 ds0]; [contradiction Hds; reflexivity|].
  change (flat_map (fun x => differences q (snd (fst x)))
            (firstn 5 (Py.sort_desc sim_key
               (map (fun r => (similarity q (fst r), fst r, snd r)) (r0 :: ds0)))))
    with (findSimilarBoardMoves (mkMLPlayer (r0 :: ds0) final) q 5).
  cbv zeta.
  destruct (findSimilarBoardMoves (mkMLPlayer (r0 :: ds0) final) q 5)
    as [|c moves] eqn:Hmoves; [reflexivity|].
  unfold most_common.
  destruct (set_iter (c :: moves)) as [|x xs] eqn:Hiter.
  - destruct (proj2 (Hset c) (or_introl eq_refl)).
  - destruct (max_by_first (Py.count (c :: moves)) xs x)
      as (pre & m & post & E & Hm & Hpre & Hpost).
    exists pre, m, post. rewrite Hm.
    assert (Hin : forall y, In y (c :: moves) <-> In y (pre ++ m :: post)).
    { intro y. rewrite <- E. symmetry. apply Hset. }
    repeat split.
    + exact E.
    + apply Hin. apply in_or_app. right; left; reflexivity.
    + intros y Hy. apply Hin in Hy. apply in_app_or in Hy.
      destruct Hy as [Hy|[<-|Hy]];
        [apply Nat.lt_le_incl, Hpre, Hy | lia | apply Hpost, Hy].
    + exact Hpre.
Qed.

Lemma findBestMove_final_witness :
  tie_dataset <> [] /\
  List.length blank_state = 9%nat /\
  well_formed tie_dataset /\
  final_answer CPythonSet.set_iter tie_dataset blank_state.
Proof.
  split; [discriminate|]. split; [reflexivity|].
  split; [repeat constructor|].
  apply (findBestMove_final CPythonSet.set_iter tie_dataset blank_state).
  - discriminate.
  - reflexivity.
  - repeat constructor.
  - vm_compute. repeat constructor; simpl; intuition discriminate.
  - intro x. vm_compute. intuition.
Defined.

End VoteTheorems.

(** * Further properties of the code *)

(** ** Entries and available moves *)

Module BoardFacts.
Import PartB PartBFacts PartBPlay.

Lemma to_idx_Some (z : Z) (i : idx) : to_idx z = Some i <-> z = idxZ i.
Proof.
  unfold to_idx.
  destruct (Z.eqb_spec z 0) as [->|H0].
  { destruct i; simpl; split; intro H; try reflexivity; discriminate H. }
  destruct (Z.eqb_spec z 1) as [->|H1].
  { destruct i; simpl; split; intro H; try reflexivity; discriminate H. }
  destruct (Z.eqb_spec z 2) as [->|H2].
  { destruct i; simpl; split; intro H; try reflexivity; discriminate H. }
  split; [discriminate|]. intros ->. destruct i; simpl in *; contradiction.
Qed.

Lemma to_idx_idxZ (i : idx) : to_idx (idxZ i) = Some i.
Proof. destruct i; reflexivity. Qed.

Lemma idxZ_range (i : idx) : 0 <= idxZ i <= 2.
Proof. destruct i; simpl; lia. Qed.

Lemma available_iff (g : Game) (i j : idx) :
  In (i, j) (getAvailableMoves g) <-> get (board g) i j = Blank.
Proof.
  unfold getAvailableMoves. rewrite filter_In. simpl. rewrite cell_eqb_eq.
  split; [intros [_ H]; exact H | intro H; split; [|exact H]].
  destruct i, j; simpl; tauto.
Qed.

(** [validateEntry] on the integers of a cell is the blank test. *)
Lemma validateEntry_cell (g : Game) (i j : idx) :
  validateEntry (idxZ i) (idxZ j) g = cell_eqb (get (board g) i j) Blank.
Proof.
  unfold validateEntry. rewrite !to_idx_idxZ.
  destruct i, j; simpl; destruct (cell_eqb _ _); reflexivity.
Qed.

Lemma validateEntry_true (g : Game) (row col : Z) :
  validateEntry row col g = true <->
  exists i j, row = idxZ i /\ col = idxZ j /\ get (board g) i j = Blank.
Proof.
  split.
  - unfold validateEntry.
    destruct ((row <? 0) || (row >? 2) || (col <? 0) || (col >? 2));
      [discriminate|].
    destruct (to_idx row) as [i|] eqn:Ei; [|discriminate].
    destruct (to_idx col) as [j|] eqn:Ej; [|discriminate].
    apply to_idx_Some in Ei, Ej.
    destruct (cell_eqb (get (board g) i j) Blank) eqn:E; [|discriminate].
    intros _. exists i, j. repeat split; try assumption.
    apply cell_eqb_eq; exact E.
  - intros (i & j & -> & -> & H). rewrite validateEntry_cell.
    apply cell_eqb_eq; exact H.
Qed.

Lemma get_set_other (b : Board) (i j i' j' : idx) (v : cell) :
  (i, j) <> (i', j') -> get (set b i j v) i' j' = get b i' j'.
Proof.
  intro H. destruct i, j, i', j'; try reflexivity; contradiction H; reflexivity.
Qed.

Lemma flat_injective (p q : idx * idx) : flat p = flat q -> p = q.
Proof.
  destruct p as [[] []], q as [[] []]; unfold flat; simpl; intro H;
    first [reflexivity | discriminate H].
Qed.

Lemma row_major_sorted :
  StronglySorted (fun p q => flat p < flat q) row_major.
Proof.
  unfold row_major, range3, flat; simpl.
  repeat (constructor; [|repeat constructor; simpl; lia]). constructor.
Qed.

Lemma filter_sorted {A} (R : A -> A -> Prop) (f : A -> bool) (l : list A) :
  StronglySorted R l -> StronglySorted R (filter f l).
Proof.
  induction 1 as [|x l Hs IH Hx]; simpl; [constructor|].
  destruct (f x); [|exact IH].
  constructor; [exact IH|].
  apply Forall_forall. intros y Hy. apply filter_In in Hy.
  rewrite Forall_forall in Hx. apply Hx, Hy.
Qed.

Lemma filter_filter {A} (f h : A -> bool) (l : list A) :
  filter h (filter f l) = filter (fun x => f x && h x) l.
Proof.
  induction l as [|x l IH]; simpl; [reflexivity|].
  destruct (f x); simpl; [destruct (h x); rewrite IH; reflexivity | exact IH].
Qed.

(** The moves that are left after a mark is placed on one of them. *)
Lemma available_after (g : Game) (mv : idx * idx) (who : mark) :
  getAvailableMoves (play mv who g) =
  filter (fun p => negb (flat p =? flat mv)) (getAvailableMoves g).
Proof.
  unfold getAvailableMoves. rewrite filter_filter.
  apply filter_ext. intros [i j]. destruct mv as [mi mj].
  unfold play, assign, with_board; cbn [board fst snd].
  destruct (Z.eqb_spec (flat (i, j)) (flat (mi, mj))) as [E|N].
  - apply flat_injective in E. injection E as -> ->.
    rewrite get_set_same. simpl. rewrite andb_false_r. reflexivity.
  - rewrite get_set_other; [simpl; rewrite andb_true_r; reflexivity|].
    intro E. apply N. rewrite E. reflexivity.
Qed.

Lemma checkFull_iff (g : Game) : checkFull g = true <-> getAvailableMoves g = [].
Proof.
  split.
  - intro H. destruct (getAvailableMoves g) as [|[i j] l] eqn:E; [reflexivity|].
    assert (Hin : In (i, j) (getAvailableMoves g)) by (rewrite E; left; reflexivity).
    unfold checkFull in H. rewrite forallb_forall in H.
    unfold getAvailableMoves in Hin. apply filter_In in Hin.
    destruct Hin as [Hr Hb]. specialize (H _ Hr). simpl in H, Hb.
    rewrite Hb in H. discriminate H.
  - intro H. destruct (checkFull g) eqn:E; [reflexivity|].
    apply checkFull_available in E. contradiction.
Qed.

End BoardFacts.

Module BoardTheorems.
Import PartB PartBFacts PartBPlay BoardFacts.

(** X1. [validateEntry(row, col)] accepts exactly the cells that
    [getAvailableMoves] lists: it returns [True] if and only if [row] and
    [col] are the coordinates of a listed move; in particular it rejects
    every entry outside [0..2]. *)
Theorem validateEntry_available (g : Game) (row col : Z) :
  (validateEntry row col g = true <->
   exists i j, row = idxZ i /\ col = idxZ j /\ In (i, j) (getAvailableMoves g))
  /\ (validateEntry row col g = true -> 0 <= row <= 2 /\ 0 <= col <= 2).
Proof.
  split.
  - rewrite validateEntry_true. split; intros (i & j & Hr & Hc & H);
      exists i, j; repeat split; try assumption; apply available_iff; exact H.
  - intro H. apply validateEntry_true in H.
    destruct H as (i & j & -> & -> & _).
    split; apply idxZ_range.
Qed.

(** X2. [checkFull] returns [True] exactly when [getAvailableMoves]
    returns the empty list, which is exactly when [validateEntry] rejects
    every entry. *)
Theorem checkFull_no_entry (g : Game) :
  (checkFull g = true <-> getAvailableMoves g = []) /\
  (checkFull g = true <-> forall row col, validateEntry row col g = false).
Proof.
  split; [apply checkFull_iff|].
  rewrite checkFull_iff. split.
  - intros H row col. destruct (validateEntry row col g) eqn:E; [|reflexivity].
    apply validateEntry_true in E. destruct E as (i & j & _ & _ & Hb).
    apply available_iff in Hb. rewrite H in Hb. destruct Hb.
  - intro H. destruct (getAvailableMoves g) as [|[i j] l] eqn:E; [reflexivity|].
    assert (Hin : In (i, j) (getAvailableMoves g)) by (rewrite E; left; reflexivity).
    apply available_iff in Hin.
    specialize (H (idxZ i) (idxZ j)). rewrite validateEntry_cell, Hin in H.
    discriminate H.
Qed.

(** X3. [getAvailableMoves] lists the blank cells, each once, in
    strictly increasing order of the index [row * 3 + col], and there are
    at most nine of them. *)
Theorem getAvailableMoves_ordered (g : Game) :
  (forall i j, In (i, j) (getAvailableMoves g) <-> get (board g) i j = Blank) /\
  StronglySorted (fun p q => flat p < flat q) (getAvailableMoves g) /\
  NoDup (getAvailableMoves g) /\
  (List.length (getAvailableMoves g) <= 9)%nat.
Proof.
  split; [intros i j; apply available_iff|].
  split; [apply filter_sorted, row_major_sorted|].
  split.
  - apply NoDup_filter. unfold row_major, range3; simpl.
    repeat constructor; simpl; intuition discriminate.
  - unfold getAvailableMoves.
    etransitivity; [apply filter_length_le | simpl; lia].
Qed.

(** X4. Placing a mark on an available move removes that move and no
    other from the list of available moves, the rest keeping their order;
    clearing the cell again gives back the game and so the list. *)
Theorem place_then_clear (g : Game) (mv : idx * idx) (who : mark) :
  In mv (getAvailableMoves g) ->
  getAvailableMoves (play mv who g) =
    filter (fun p => negb (flat p =? flat mv)) (getAvailableMoves g) /\
  ~ In mv (getAvailableMoves (play mv who g)) /\
  (List.length (getAvailableMoves g) =
   S (List.length (getAvailableMoves (play mv who g)))) /\
  assign (fst mv) (snd mv) Blank (play mv who g) = g.
Proof.
  intro Hin. destruct mv as [i j].
  pose proof (available_blank g i j Hin) as Hb.
  split; [apply available_after|].
  split.
  - rewrite available_after, filter_In. intros [_ H].
    rewrite Z.eqb_refl in H. discriminate H.
  - split; [|apply assign_undo; exact Hb].
    rewrite <- !blanks_available. apply (blanks_assign g i j who Hb).
Qed.

Lemma validateEntry_available_witness :
  (validateEntry 1 2 sample_game = true <->
   exists i j, 1 = idxZ i /\ 2 = idxZ j /\ In (i, j) (getAvailableMoves sample_game))
  /\ (validateEntry 1 2 sample_game = true -> 0 <= 1 <= 2 /\ 0 <= 2 <= 2).
Proof. apply (validateEntry_available sample_game 1 2). Defined.

Lemma place_then_clear_witness :
  In (I1, I2) (getAvailableMoves sample_game) /\
  (getAvailableMoves (play (I1, I2) X sample_game) =
     filter (fun p => negb (flat p =? flat (I1, I2)))
            (getAvailableMoves sample_game) /\
   ~ In (I1, I2) (getAvailableMoves (play (I1, I2) X sample_game)) /\
   (List.length (getAvailableMoves sample_game) =
    S (List.length (getAvailableMoves (play (I1, I2) X sample_game)))) /\
   assign (fst (I1, I2)) (snd (I1, I2)) Blank (play (I1, I2) X sample_game)
   = sample_game).
Proof.
  split; [simpl; tauto|].
  apply (place_then_clear sample_game (I1, I2) X). simpl; tauto.
Defined.

End BoardTheorems.

(** ** What the search returns *)

Module EngineFacts.
Import PartB PartBFacts MinimaxFacts MinimaxTheorems SearchFacts SelfPlayFacts.
Import PartBPlay BoardFacts.

Lemma opt_cell_eqb_mark (w : option cell) (m : mark) :
  opt_cell_eqb w (Some (Mk m)) = true <-> w = Some (Mk m).
Proof.
  destruct w as [c|]; simpl; [|split; discriminate].
  rewrite cell_eqb_eq. split; congruence.
Qed.

(** [getBestMove] on a board with a blank cell: a move of greatest
    score. *)
Lemma getBestMove_greatest (g : Game) :
  checkFull g = false ->
  exists mv,
    getBestMove 9 g = Some (Some mv, g) /\
    In mv (getAvailableMoves g) /\
    forall x, In x (getAvailableMoves g) ->
              minimax_val (play x (computer g) g) 0 false
              <= minimax_val (play mv (computer g) g) 0 false.
Proof.
  intro Hfull. pose proof (checkFull_available g Hfull) as Hne.
  rewrite getBestMove_loop.
  rewrite (best_loop g 9 _ _ (incl_refl _) (blanks_le_9 _)).
  destruct (getAvailableMoves g) as [|b xs]; [contradiction Hne; reflexivity|].
  set (f := fun mv => minimax_val (play mv (computer g) g) 0 false).
  destruct (keep_best_first f xs b) as (pre & mv & post & E & Hf & Hpre & Hpost).
  exists mv. split; [|split].
  - simpl fold_left. unfold keep_best at 2. simpl. fold f. rewrite Hf. reflexivity.
  - rewrite E. apply in_or_app. right; left; reflexivity.
  - intros x Hx. rewrite E in Hx. apply in_app_or in Hx.
    destruct Hx as [Hx|[<-|Hx]];
      [apply Z.lt_le_incl, Hpre, Hx | lia | apply Hpost, Hx].
Qed.

Lemma getBestMove_full (g : Game) (fuel : nat) :
  checkFull g = true -> getBestMove fuel g = Some (None, g).
Proof.
  intro H. apply checkFull_iff in H.
  rewrite getBestMove_loop, H. reflexivity.
Qed.

(** The scores of a position whose terminal positions lie at depths up
    to 9: never beyond [10 - d] and [d - 10], these two only for a
    position that is won. *)
Lemma value_range (fuel : nat) :
  forall (g : Game) (d : Z) (m : bool),
    (blanks (board g) < fuel)%nat ->
    0 <= d -> d + Z.of_nat (blanks (board g)) <= 9 ->
    d - 10 <= value fuel g d m <= 10 - d /\
    (value fuel g d m = 10 - d -> getWinner g = Some (Mk (computer g))) /\
    (value fuel g d m = d - 10 -> getWinner g = Some (Mk (human g))).
Proof.
  induction fuel as [|fuel IH]; intros g d m Hf Hd Hb; [lia|].
  cbn [value].
  destruct (opt_cell_eqb (getWinner g) (Some (Mk (computer g)))) eqn:Ec.
  { apply opt_cell_eqb_mark in Ec. repeat split; try lia.
    intros _. exact Ec. }
  destruct (opt_cell_eqb (getWinner g) (Some (Mk (human g)))) eqn:Eh.
  { apply opt_cell_eqb_mark in Eh. repeat split; try lia.
    intros _. exact Eh. }
  destruct (checkFull g) eqn:Hfull; [repeat split; lia|].
  pose proof (checkFull_available g Hfull) as Hne.
  assert (Hsub : forall who r mv, In mv (getAvailableMoves g) ->
             d - 9 <= value fuel (play mv who g) (d + 1) r <= 9 - d).
  { intros who r [row col] Hin.
    assert (E : blanks (board g) = S (blanks (board (play (row, col) who g)))).
    { apply (blanks_assign g row col who), available_blank, Hin. }
    destruct (IH (play (row, col) who g) (d + 1) r) as [Hr _]; lia. }
  assert (Hmid : forall who r (pick : list Z -> Z),
             (forall l, l <> [] -> In (pick l) l) ->
             d - 9 <= pick (map (fun mv => value fuel (play mv who g) (d + 1) r)
                                (getAvailableMoves g)) <= 9 - d).
  { intros who r pick Hpick.
    specialize (Hpick (map (fun mv => value fuel (play mv who g) (d + 1) r)
                           (getAvailableMoves g))).
    destruct (in_map_iff (fun mv => value fuel (play mv who g) (d + 1) r)
                         (getAvailableMoves g)
                         (pick (map (fun mv => value fuel (play mv who g) (d + 1) r)
                                    (getAvailableMoves g)))) as [Hm _].
    destruct Hm as (mv & <- & Hmv).
    - apply Hpick. intro E. apply map_eq_nil in E. contradiction.
    - apply Hsub, Hmv. }
  destruct m.
  - pose proof (Hmid (computer g) false maximum
                     (fun l Hl => proj1 (maximum_spec l Hl))) as H.
    repeat split; lia.
  - pose proof (Hmid (human g) true minimum
                     (fun l Hl => proj1 (minimum_spec l Hl))) as H.
    repeat split; lia.
Qed.

Lemma blanks_Z (b : Board) : Z.of_nat (blanks b) <= 9.
Proof. pose proof (blanks_le_9 b). lia. Qed.

(** The score of the position after an available move, at depth 0. *)
Lemma reply_range (g : Game) (mv : idx * idx) (who : mark) (m : bool) :
  In mv (getAvailableMoves g) ->
  -10 <= minimax_val (play mv who g) 0 m <= 10 /\
  (minimax_val (play mv who g) 0 m = 10 ->
   getWinner (play mv who g) = Some (Mk (computer g))) /\
  (minimax_val (play mv who g) 0 m = -10 ->
   getWinner (play mv who g) = Some (Mk (human g))).
Proof.
  intro Hin.
  destruct (child_fuel g mv who 9 Hin (blanks_le_9 _)) as [_ Hlt].
  rewrite (minimax_val_value _ 0 m 9 Hlt).
  destruct (value_range 9 (play mv who g) 0 m Hlt) as (Hr & Hw & Hl); [lia|lia|].
  repeat split; try lia; [exact Hw | exact Hl].
Qed.

Lemma three_eq (x y z : cell) : three x y z = true -> x = y /\ y = z.
Proof.
  unfold three. intro H. apply andb_prop in H. destruct H as [H _].
  apply andb_prop in H. destruct H as [Hxy Hyz].
  split; apply cell_eqb_eq; assumption.
Qed.

Lemma checkWin_false (g : Game) :
  checkWin g = false ->
  let b := board g in
  three (get b I0 I0) (get b I0 I1) (get b I0 I2) = false /\
  three (get b I1 I0) (get b I1 I1) (get b I1 I2) = false /\
  three (get b I2 I0) (get b I2 I1) (get b I2 I2) = false /\
  three (get b I0 I0) (get b I1 I0) (get b I2 I0) = false /\
  three (get b I0 I1) (get b I1 I1) (get b I2 I1) = false /\
  three (get b I0 I2) (get b I1 I2) (get b I2 I2) = false /\
  three (get b I0 I0) (get b I1 I1) (get b I2 I2) = false /\
  three (get b I0 I2) (get b I1 I1) (get b I2 I0) = false.
Proof.
  unfold checkWin, range3, row_wins, col_wins. cbn [existsb orb]. cbv zeta.
  repeat match goal with
         | |- context [three ?a ?b ?c] => destruct (three a b c)
         end;
    cbn; intro H; try discriminate H; repeat split.
Qed.

Lemma checkWin_getWinner_none (g : Game) :
  checkWin g = false -> getWinner g = None.
Proof.
  intro H. apply checkWin_false in H. cbv zeta in H.
  destruct H as (H1 & H2 & H3 & H4 & H5 & H6 & H7 & H8).
  unfold getWinner, range3, row_wins, col_wins. cbn [find].
  rewrite H1, H2, H3, H4, H5, H6, H7, H8. reflexivity.
Qed.

(** On a board without a winner, a mark placed on a blank cell makes
    nobody but its owner the winner. *)
Lemma mover_wins (g : Game) (i j : idx) (m : mark) :
  checkWin g = false ->
  getWinner (assign i j (Mk m) g) = None \/
  getWinner (assign i j (Mk m) g) = Some (Mk m).
Proof.
  intro H. apply checkWin_false in H. cbv zeta in H.
  destruct H as (H1 & H2 & H3 & H4 & H5 & H6 & H7 & H8).
  unfold getWinner, range3, row_wins, col_wins. cbn [find].
  destruct g as [b t h cm].
  destruct b as [[a0 a1 a2] [b0 b1 b2] [d0 d1 d2]].
  destruct i, j;
    cbn [get set row_get row_set row_of c0 c1 c2 r0 r1 r2 board assign
         with_board] in *;
    repeat match goal with
           | H : three ?a ?b ?c = false |- context [three ?a ?b ?c] =>
             rewrite H
           | |- context [if three ?a ?b ?c then _ else _] =>
             let E := fresh "E" in
             destruct (three a b c) eqn:E;
             [ cbn; right; apply three_eq in E; destruct E; f_equal;
               congruence
             | cbv beta iota ]
           end;
    left; reflexivity.
Qed.

End EngineFacts.

Module EngineTheorems.
Import PartB PartBFacts MinimaxFacts MinimaxTheorems SearchFacts SelfPlayFacts.
Import PartBPlay BoardFacts EngineFacts.

(** X5. On a full board [getBestMove] returns [None] (and leaves the
    board as it is); on any other board it returns a move that
    [validateEntry] accepts, so the cell the caller writes to is in range
    and blank. *)
Theorem getBestMove_valid (g : Game) :
  if checkFull g
  then getBestMove 9 g = Some (None, g)
  else exists i j, getBestMove 9 g = Some (Some (i, j), g) /\
                   validateEntry (idxZ i) (idxZ j) g = true.
Proof.
  destruct (checkFull g) eqn:Hfull; [apply getBestMove_full; exact Hfull|].
  destruct (getBestMove_greatest g Hfull) as ([i j] & Hm & Hin & _).
  exists i, j. split; [exact Hm|].
  rewrite validateEntry_cell. apply cell_eqb_eq, available_blank, Hin.
Qed.

(** X6. For a depth [d >= 0] with [d] plus the number of blank cells at
    most 9, the score of [minimax(d, is_maximizing)] lies between
    [d - 10] and [10 - d]; it is [10 - d] only if the computer has
    already won and [d - 10] only if the human has. *)
Theorem minimax_score_range (g : Game) (d : Z) (m : bool) :
  0 <= d -> d + Z.of_nat (blanks (board g)) <= 9 ->
  d - 10 <= minimax_val g d m <= 10 - d /\
  (minimax_val g d m = 10 - d -> getWinner g = Some (Mk (computer g))) /\
  (minimax_val g d m = d - 10 -> getWinner g = Some (Mk (human g))).
Proof.
  intros Hd Hb.
  rewrite (minimax_val_value g d m _ (Nat.lt_succ_diag_r _)).
  apply value_range; [lia | exact Hd | exact Hb].
Qed.

Lemma minimax_score_range_witness :
  0 <= 0 /\ 0 + Z.of_nat (blanks (board sample_game)) <= 9 /\
  (-10 <= minimax_val sample_game 0 true <= 10 - 0 /\
   (minimax_val sample_game 0 true = 10 - 0 ->
    getWinner sample_game = Some (Mk (computer sample_game))) /\
   (minimax_val sample_game 0 true = 0 - 10 ->
    getWinner sample_game = Some (Mk (human sample_game)))).
Proof.
  split; [lia|]. split; [vm_compute; discriminate|].
  apply (minimax_score_range sample_game 0 true); [lia | vm_compute; discriminate].
Defined.

(** X7. When some available move wins the game for the computer at
    once, [getBestMove] returns a move that wins at once. *)
Theorem getBestMove_takes_win (g : Game) (win : idx * idx) :
  In win (getAvailableMoves g) ->
  getWinner (play win (computer g) g) = Some (Mk (computer g)) ->
  exists mv,
    getBestMove 9 g = Some (Some mv, g) /\
    In mv (getAvailableMoves g) /\
    getWinner (play mv (computer g) g) = Some (Mk (computer g)).
Proof.
  intros Hin Hwin.
  assert (Hfull : checkFull g = false).
  { destruct (checkFull g) eqn:E; [|reflexivity].
    apply checkFull_iff in E. rewrite E in Hin. destruct Hin. }
  destruct (getBestMove_greatest g Hfull) as (mv & Hm & Hmv & Hmax).
  exists mv. split; [exact Hm|]. split; [exact Hmv|].
  destruct (reply_range g mv (computer g) false Hmv) as (Hr & Hw & _).
  apply Hw.
  assert (Hten : minimax_val (play win (computer g) g) 0 false = 10).
  { destruct (child_fuel g win (computer g) 9 Hin (blanks_le_9 _)) as [_ Hlt].
    rewrite (minimax_val_value _ 0 false 9 Hlt). cbn [value].
    apply opt_cell_eqb_mark in Hwin.
    change (computer (play win (computer g) g)) with (computer g).
    rewrite Hwin. reflexivity. }
  specialize (Hmax win Hin). lia.
Qed.

Lemma getBestMove_takes_win_witness :
  In (I2, I2) (getAvailableMoves winning_game) /\
  getWinner (play (I2, I2) (computer winning_game) winning_game)
  = Some (Mk (computer winning_game)) /\
  exists mv,
    getBestMove 9 winning_game = Some (Some mv, winning_game) /\
    In mv (getAvailableMoves winning_game) /\
    getWinner (play mv (computer winning_game) winning_game)
    = Some (Mk (computer winning_game)).
Proof.
  split; [simpl; tauto|]. split; [reflexivity|].
  apply (getBestMove_takes_win winning_game (I2, I2)); [simpl; tauto | reflexivity].
Defined.

(** X8. On a board on which nobody has won, after a mark is placed on a
    cell [getWinner] returns [None] or that mark: a move never makes the
    other side the winner. *)
Theorem move_wins_for_mover (g : Game) (i j : idx) (m : mark) :
  checkWin g = false ->
  getWinner (assign i j (Mk m) g) = None \/
  getWinner (assign i j (Mk m) g) = Some (Mk m).
Proof. apply mover_wins. Qed.

Lemma move_wins_for_mover_witness :
  checkWin sample_game = false /\
  (getWinner (assign I2 I0 (Mk X) sample_game) = None \/
   getWinner (assign I2 I0 (Mk X) sample_game) = Some (Mk X)).
Proof.
  split; [reflexivity|].
  apply (move_wins_for_mover sample_game I2 I0 X). reflexivity.
Defined.

End EngineTheorems.

(** ** The game loop *)

Module PlayFacts.
Import PartB PartBFacts MinimaxFacts MinimaxTheorems SearchFacts SelfPlayFacts.
Import PartBPlay BoardFacts EngineFacts.

Lemma checkWin_true (g : Game) : checkWin g = true -> getWinner g <> None.
Proof.
  unfold checkWin, getWinner, range3, row_wins, col_wins.
  cbn [find existsb orb].
  repeat match goal with
         | |- context [three ?a ?b ?c] => destruct (three a b c)
         end;
    cbn; intro H; first [discriminate H | discriminate].
Qed.

Lemma checkEnd_false (g : Game) :
  checkEnd g = false -> checkWin g = false /\ checkFull g = false.
Proof.
  unfold checkEnd. destruct (checkWin g), (checkFull g); intro H;
    try discriminate H. split; reflexivity.
Qed.

Lemma blanks_zero_full (g : Game) : blanks (board g) = 0%nat -> checkFull g = true.
Proof.
  intro H. apply checkFull_iff. rewrite blanks_available in H.
  destruct (getAvailableMoves g); [reflexivity | discriminate H].
Qed.

(** The cell the user's entry names is blank; lines were read. *)
Lemma read_move_blank (g : Game) (n : nat) :
  forall input i j rest,
    (List.length input <= n)%nat ->
    read_move g input = Some (i, j, rest) ->
    get (board g) i j = Blank /\
    (List.length rest < List.length input)%nat.
Proof.
  induction n as [|n IH]; intros input i j rest Hn H.
  - destruct input; [discriminate H | simpl in Hn; lia].
  - destruct input as [|r input]; [discriminate H|].
    cbn [read_move] in H. simpl in Hn.
    destruct (read_int r) as [row|].
    + destruct input as [|c input]; [discriminate H|].
      simpl in Hn.
      destruct (read_int c) as [col|].
      * destruct (validateEntry row col g) eqn:Hv.
        -- destruct (to_idx row) as [i'|] eqn:Ei; [|discriminate H].
           destruct (to_idx col) as [j'|] eqn:Ej; [|discriminate H].
           injection H as -> -> ->.
           apply to_idx_Some in Ei, Ej. subst row col.
           rewrite validateEntry_cell in Hv.
           split; [apply cell_eqb_eq; exact Hv | simpl; lia].
        -- destruct (IH input i j rest) as [Hb Hl]; [lia | exact H |].
           split; [exact Hb | simpl; lia].
      * destruct (IH input i j rest) as [Hb Hl]; [lia | exact H |].
        split; [exact Hb | simpl; lia].
    + destruct (IH input i j rest) as [Hb Hl]; [lia | exact H |].
      split; [exact Hb | simpl; lia].
Qed.

Lemma mark_cases (t h cm : mark) :
  h <> cm -> mark_eqb t h = false -> t = cm.
Proof. destruct t, h, cm; simpl; intros H E; congruence. Qed.

Lemma mark_eqb_eq (a b : mark) : mark_eqb a b = true <-> a = b.
Proof. destruct a, b; simpl; split; congruence. Qed.

(** What one turn of the loop does. *)
Lemma playGame_turn (fuel : nat) (g : Game) (input : list string) :
  checkFull g = false ->
  playGame (S fuel) g input = EOFError \/
  exists i j rest,
    get (board g) i j = Blank /\
    (if mark_eqb (turn g) (human g)
     then read_move g input = Some (i, j, rest)
     else rest = input /\
          getBestMove 9 g = Some (Some (i, j), g) /\
          forall x, In x (getAvailableMoves g) ->
                    minimax_val (play x (computer g) g) 0 false
                    <= minimax_val (play (i, j) (computer g) g) 0 false) /\
    playGame (S fuel) g input =
    if checkEnd (after_move g i j) then GameOver (after_move g i j)
    else playGame fuel (switchPlayer (after_move g i j)) rest.
Proof.
  intro Hfull. cbn [playGame].
  destruct (mark_eqb (turn g) (human g)) eqn:Et.
  - destruct (read_move g input) as [[[i j] rest]|] eqn:Hr; [|left; reflexivity].
    right. exists i, j, rest.
    destruct (read_move_blank g _ input i j rest (le_n _) Hr) as [Hb _].
    split; [exact Hb|]. split; [reflexivity|].
    unfold after_move. destruct (checkEnd _); reflexivity.
  - destruct (getBestMove_greatest g Hfull) as ([i j] & Hm & Hin & Hmax).
    right. exists i, j, input. rewrite Hm.
    split; [apply available_blank; exact Hin|].
    split; [split; [reflexivity | split; [reflexivity | exact Hmax]]|].
    unfold after_move. destruct (checkEnd _); reflexivity.
Qed.

Lemma after_move_blanks (g : Game) (i j : idx) :
  get (board g) i j = Blank ->
  blanks (board g) = S (blanks (board (switchPlayer (after_move g i j)))).
Proof. intro H. apply (blanks_assign g i j (turn g) H). Qed.

(** The invariants of the loop. *)
Lemma playGame_invariants (fuel : nat) :
  forall (g : Game) (input : list string),
    checkEnd g = false -> (blanks (board g) <= fuel)%nat ->
    match playGame fuel g input with
    | GameOver final =>
      checkEnd final = true /\
      (checkWin final = true -> getWinner final = Some (Mk (turn final))) /\
      (forall i j, get (board g) i j <> Blank ->
                   get (board final) i j = get (board g) i j) /\
      human final = human g /\ computer final = computer g
    | EOFError => True
    | TypeError => False
    | OutOfFuel => False
    end.
Proof.
  induction fuel as [|fuel IH]; intros g input Hend Hfuel.
  - destruct (checkEnd_false g Hend) as [_ Hfull].
    rewrite blanks_zero_full in Hfull; [discriminate Hfull | lia].
  - destruct (checkEnd_false g Hend) as [Hwin Hfull].
    destruct (playGame_turn fuel g input Hfull)
      as [->|(i & j & rest & Hb & _ & ->)]; [exact I|].
    assert (Hkeep : forall i' j', get (board g) i' j' <> Blank ->
               get (board (after_move g i j)) i' j' = get (board g) i' j').
    { intros i' j' Hne. unfold after_move, assign, with_board; cbn [board].
      apply get_set_other. intro E. injection E as -> ->. contradiction. }
    destruct (checkEnd (after_move g i j)) eqn:Hend'.
    + split; [exact Hend'|]. split; [|split; [exact Hkeep | split; reflexivity]].
      intro Hw. apply checkWin_true in Hw.
      destruct (mover_wins g i j (turn g) Hwin) as [Hn|Hm];
        [contradiction | exact Hm].
    + specialize (IH (switchPlayer (after_move g i j)) rest Hend').
      pose proof (after_move_blanks g i j Hb) as Hbl.
      specialize (IH ltac:(lia)).
      destruct (playGame fuel (switchPlayer (after_move g i j)) rest)
        as [final| | |]; try exact IH.
      destruct IH as (H1 & H2 & H3 & H4 & H5).
      split; [exact H1|]. split; [exact H2|].
      split; [|split; [exact H4 | exact H5]].
      intros i' j' Hne. rewrite <- (Hkeep i' j' Hne).
      apply H3. change (board (switchPlayer (after_move g i j)))
        with (board (after_move g i j)).
      rewrite (Hkeep i' j' Hne). exact Hne.
Qed.

(** *** The computer does not lose *)

Lemma maximum_nonneg (l : list Z) :
  l <> [] -> (0 <= maximum l <-> exists x, In x l /\ 0 <= x).
Proof.
  intro Hl. destruct (maximum_spec l Hl) as [Hin Hle]. split.
  - intro H. exists (maximum l). split; assumption.
  - intros (x & Hx & H0). specialize (Hle x Hx). lia.
Qed.

Lemma minimum_nonneg (l : list Z) :
  l <> [] -> (0 <= minimum l <-> forall x, In x l -> 0 <= x).
Proof.
  intro Hl. destruct (minimum_spec l Hl) as [Hin Hle]. split.
  - intros H x Hx. specialize (Hle x Hx). lia.
  - intro H. apply H, Hin.
Qed.

(** A position is secure exactly when its score is not negative, at
    whatever depth the score is taken. *)
Lemma secure_value (fuel : nat) :
  forall (g : Game) (d : Z) (m : bool),
    (blanks (board g) < fuel)%nat ->
    0 <= d -> d + Z.of_nat (blanks (board g)) <= 9 ->
    (secure fuel g m = true <-> 0 <= value fuel g d m).
Proof.
  induction fuel as [|fuel IH]; intros g d m Hf Hd Hb; [lia|].
  cbn [secure value].
  destruct (opt_cell_eqb (getWinner g) (Some (Mk (computer g))));
    [split; [lia | reflexivity]|].
  destruct (opt_cell_eqb (getWinner g) (Some (Mk (human g))));
    [split; [discriminate | lia]|].
  destruct (checkFull g) eqn:Hfull; [split; [lia | reflexivity]|].
  pose proof (checkFull_available g Hfull) as Hne.
  assert (Hsub : forall who r mv, In mv (getAvailableMoves g) ->
             (secure fuel (play mv who g) r = true <->
              0 <= value fuel (play mv who g) (d + 1) r)).
  { intros who r [row col] Hin.
    assert (E : blanks (board g) = S (blanks (board (play (row, col) who g)))).
    { apply (blanks_assign g row col who), available_blank, Hin. }
    apply IH; lia. }
  destruct m.
  - rewrite maximum_nonneg by (intro E; apply map_eq_nil in E; contradiction).
    rewrite existsb_exists. split.
    + intros (mv & Hmv & Hs). exists (value fuel (play mv (computer g) g) (d + 1) false).
      split; [apply in_map_iff; exists mv; split; [reflexivity | exact Hmv]|].
      apply Hsub; assumption.
    + intros (x & Hx & H0). apply in_map_iff in Hx.
      destruct Hx as (mv & <- & Hmv). exists mv. split; [exact Hmv|].
      apply Hsub; assumption.
  - rewrite minimum_nonneg by (intro E; apply map_eq_nil in E; contradiction).
    rewrite forallb_forall. split.
    + intros H x Hx. apply in_map_iff in Hx. destruct Hx as (mv & <- & Hmv).
      apply Hsub; [exact Hmv | apply H, Hmv].
    + intros H mv Hmv. apply Hsub; [exact Hmv|].
      apply H. apply in_map_iff. exists mv. split; [reflexivity | exact Hmv].
Qed.

(** The score does not depend on whose turn the game records. *)
Lemma value_switchPlayer (fuel : nat) :
  forall g d m, value fuel (switchPlayer g) d m = value fuel g d m.
Proof.
  induction fuel as [|fuel IH]; intros g d m; [reflexivity|].
  cbn [value].
  change (getWinner (switchPlayer g)) with (getWinner g).
  change (checkFull (switchPlayer g)) with (checkFull g).
  change (getAvailableMoves (switchPlayer g)) with (getAvailableMoves g).
  change (computer (switchPlayer g)) with (computer g).
  change (human (switchPlayer g)) with (human g).
  destruct (opt_cell_eqb (getWinner g) (Some (Mk (computer g)))); [reflexivity|].
  destruct (opt_cell_eqb (getWinner g) (Some (Mk (human g)))); [reflexivity|].
  destruct (checkFull g); [reflexivity|].
  destruct m; f_equal; apply map_ext; intro mv;
    change (play mv ?w (switchPlayer g)) with (switchPlayer (play mv w g));
    apply IH.
Qed.

Lemma minimax_val_switchPlayer (g : Game) (d : Z) (m : bool) :
  minimax_val (switchPlayer g) d m = minimax_val g d m.
Proof.
  rewrite (minimax_val_value (switchPlayer g) d m 10),
          (minimax_val_value g d m 10).
  - apply value_switchPlayer.
  - pose proof (blanks_le_9 (board g)); lia.
  - pose proof (blanks_le_9 (board (switchPlayer g))); lia.
Qed.

(** The sign of the score of the position after a move is the same at
    depth 1, where [minimax] reaches it from the position before, and at
    depth 0, where [getBestMove] takes it. *)
Lemma reply_sign (g : Game) (mv : idx * idx) (who : mark) (m : bool) :
  In mv (getAvailableMoves g) ->
  (0 <= value (blanks (board g)) (play mv who g) 1 m <->
   0 <= minimax_val (play mv who g) 0 m).
Proof.
  intro Hin. destruct mv as [i j].
  assert (E : blanks (board g) = S (blanks (board (play (i, j) who g)))).
  { apply (blanks_assign g i j who), available_blank, Hin. }
  pose proof (blanks_le_9 (board g)) as H9.
  rewrite (minimax_val_value _ 0 m (blanks (board g))) by lia.
  rewrite <- (secure_value (blanks (board g)) _ 1 m) by lia.
  rewrite <- (secure_value (blanks (board g)) _ 0 m) by lia.
  reflexivity.
Qed.

(** The score of a position that is not over, one level unfolded. *)
Lemma minimax_val_open (g : Game) (m : bool) :
  checkEnd g = false ->
  minimax_val g 0 m =
  if m
  then maximum (map (fun mv => value (blanks (board g)) (play mv (computer g) g) 1 false)
                    (getAvailableMoves g))
  else minimum (map (fun mv => value (blanks (board g)) (play mv (human g) g) 1 true)
                    (getAvailableMoves g)).
Proof.
  intro Hend. destruct (checkEnd_false g Hend) as [Hwin Hfull].
  rewrite (minimax_val_value g 0 m _ (Nat.lt_succ_diag_r _)). cbn [value].
  rewrite (checkWin_getWinner_none g Hwin), Hfull. reflexivity.
Qed.

(** A score that is not negative stays so over one turn of the loop. *)
Lemma turn_keeps_secure (g : Game) (i j : idx) :
  human g <> computer g ->
  checkEnd g = false ->
  0 <= minimax_val g 0 (computer_to_move g) ->
  get (board g) i j = Blank ->
  (if mark_eqb (turn g) (human g) then True
   else forall x, In x (getAvailableMoves g) ->
                  minimax_val (play x (computer g) g) 0 false
                  <= minimax_val (play (i, j) (computer g) g) 0 false) ->
  0 <= minimax_val (after_move g i j) 0 (negb (computer_to_move g)).
Proof.
  intros Hhc Hend Hinv Hb Hbest.
  destruct (checkEnd_false g Hend) as [_ Hfull].
  pose proof (checkFull_available g Hfull) as Hne.
  assert (Hin : In (i, j) (getAvailableMoves g)) by (apply available_iff; exact Hb).
  rewrite (minimax_val_open g _ Hend) in Hinv.
  unfold computer_to_move in *. unfold after_move.
  destruct (mark_eqb (turn g) (human g)) eqn:Et; cbn [negb] in *.
  - apply mark_eqb_eq in Et. rewrite Et.
    rewrite minimum_nonneg in Hinv
      by (intro E; apply map_eq_nil in E; contradiction).
    apply (reply_sign g (i, j) (human g) true Hin).
    apply Hinv. apply in_map_iff. exists (i, j). split; [reflexivity | exact Hin].
  - rewrite (mark_cases _ _ _ Hhc Et).
    rewrite maximum_nonneg in Hinv
      by (intro E; apply map_eq_nil in E; contradiction).
    destruct Hinv as (x & Hx & H0). apply in_map_iff in Hx.
    destruct Hx as (mv & <- & Hmv).
    apply (reply_sign g mv (computer g) false Hmv) in H0.
    specialize (Hbest mv Hmv).
    change (assign i j (Mk (computer g)) g) with (play (i, j) (computer g) g).
    lia.
Qed.

(** The human has not won a position whose score is not negative. *)
Lemma secure_not_lost (g : Game) (m : bool) :
  human g <> computer g ->
  0 <= minimax_val g 0 m ->
  getWinner g <> Some (Mk (human g)).
Proof.
  intros Hhc H E.
  rewrite (minimax_val_value g 0 m _ (Nat.lt_succ_diag_r _)) in H.
  cbn [value] in H. rewrite E in H.
  assert (Hc : opt_cell_eqb (Some (Mk (human g))) (Some (Mk (computer g))) = false).
  { destruct (human g), (computer g); simpl; congruence. }
  assert (Hh : opt_cell_eqb (Some (Mk (human g))) (Some (Mk (human g))) = true).
  { destruct (human g); reflexivity. }
  rewrite Hc, Hh in H. lia.
Qed.

(** [getBestMove] hands the game back as it was. *)
Lemma getBestMove_same (g g' : Game) (mv : option (idx * idx)) :
  getBestMove 9 g = Some (mv, g') -> g' = g.
Proof.
  rewrite getBestMove_loop.
  rewrite (best_loop g 9 _ _ (incl_refl _) (blanks_le_9 _)).
  intro H. injection H as _ <-. reflexivity.
Qed.

(** A game that [playGame] leaves by [checkEnd] is over, and the marks
    of the two players are those it started with. *)
Lemma playGame_over (fuel : nat) :
  forall (g : Game) (input : list string) (final : Game),
    playGame fuel g input = GameOver final ->
    checkEnd final = true /\ human final = human g /\
    computer final = computer g.
Proof.
  induction fuel as [|fuel IH]; intros g input final H; [discriminate H|].
  cbn [playGame] in H.
  assert (Hstep : forall g1 rest,
             human g1 = human g -> computer g1 = computer g ->
             (if checkEnd g1 then GameOver g1
              else playGame fuel (switchPlayer g1) rest) = GameOver final ->
             checkEnd final = true /\ human final = human g /\
             computer final = computer g).
  { intros g1 rest Hh Hc E. destruct (checkEnd g1) eqn:Hend.
    - injection E as <-. repeat split; assumption.
    - apply IH in E. destruct E as (E1 & E2 & E3).
      repeat split; [exact E1 | rewrite E2; exact Hh | rewrite E3; exact Hc]. }
  destruct (mark_eqb (turn g) (human g)).
  - destruct (read_move g input) as [[[i j] rest]|]; [|discriminate H].
    apply (Hstep (assign i j (Mk (turn g)) g) rest);
      [reflexivity | reflexivity | exact H].
  - destruct (getBestMove 9 g) as [[[[i j]|] g']|] eqn:Hb; try discriminate H.
    apply getBestMove_same in Hb. subst g'.
    apply (Hstep (assign i j (Mk (turn g)) g) input);
      [reflexivity | reflexivity | exact H].
Qed.

(** [getWinner] returns a mark, never the blank. *)
Lemma getWinner_mark (g : Game) (c : cell) :
  getWinner g = Some c -> exists m, c = Mk m.
Proof.
  assert (Hthree : forall x y z, three x y z = true -> exists m, x = Mk m).
  { intros x y z H. destruct x as [|m]; [|exists m; reflexivity].
    unfold three in H. simpl in H. rewrite andb_false_r in H. discriminate H. }
  unfold getWinner, range3, row_wins, col_wins. cbn [find].
  repeat match goal with
         | |- context [if three ?a ?b ?c then _ else _] =>
           let E := fresh "E" in
           destruct (three a b c) eqn:E;
           [ cbn; intro H; injection H as <-; apply (Hthree _ _ _ E)
           | cbv beta iota ]
         end.
  discriminate.
Qed.

(** A game that is over and that the human has not won is a win of the
    computer or a draw on a full board. *)
Lemma over_cases (g : Game) :
  human g <> computer g ->
  getWinner g <> Some (Mk (human g)) ->
  checkEnd g = true ->
  getWinner g = Some (Mk (computer g)) \/
  getWinner g = None /\ checkFull g = true.
Proof.
  intros Hhc Hnot Hend. unfold checkEnd in Hend.
  destruct (checkWin g) eqn:Hw.
  - left. apply checkWin_true in Hw.
    destruct (getWinner g) as [c|] eqn:E; [|contradiction Hw; reflexivity].
    destruct (getWinner_mark g c E) as [m ->].
    f_equal. f_equal. destruct m, (human g), (computer g); congruence.
  - right. split; [apply checkWin_getWinner_none; exact Hw|].
    destruct (checkFull g); [reflexivity | discriminate Hend].
Qed.

Lemma playGame_secure (fuel : nat) :
  forall (g : Game) (input : list string) (final : Game),
    human g <> computer g ->
    checkEnd g = false ->
    0 <= minimax_val g 0 (computer_to_move g) ->
    playGame fuel g input = GameOver final ->
    getWinner final <> Some (Mk (human g)).
Proof.
  induction fuel as [|fuel IH]; intros g input final Hhc Hend Hinv Hplay;
    [discriminate Hplay|].
  destruct (checkEnd_false g Hend) as [Hwin Hfull].
  destruct (playGame_turn fuel g input Hfull)
    as [E|(i & j & rest & Hb & Hmove & E)];
    rewrite E in Hplay; [discriminate Hplay|].
  assert (Hnext : 0 <= minimax_val (after_move g i j) 0
                         (negb (computer_to_move g))).
  { apply turn_keeps_secure; try assumption.
    destruct (mark_eqb (turn g) (human g)); [exact I | apply Hmove]. }
  destruct (checkEnd (after_move g i j)) eqn:Hend'.
  - injection Hplay as <-.
    apply (secure_not_lost (after_move g i j) _ Hhc Hnext).
  - apply (IH (switchPlayer (after_move g i j)) rest final); try assumption.
    rewrite minimax_val_switchPlayer.
    replace (computer_to_move (switchPlayer (after_move g i j)))
      with (negb (computer_to_move g)); [exact Hnext|].
    unfold computer_to_move, switchPlayer, after_move, assign, with_board;
      cbn [turn human].
    destruct (turn g), (human g); reflexivity.
Qed.

Lemma Game_init_secure (human_player : mark) :
  0 <= minimax_val (Game_init human_player) 0
                   (computer_to_move (Game_init human_player)).
Proof.
  rewrite (minimax_val_value _ 0 _ 10)
    by (pose proof (blanks_le_9 (board (Game_init human_player))); lia).
  apply (secure_value 10).
  - pose proof (blanks_le_9 (board (Game_init human_player))); lia.
  - lia.
  - pose proof (blanks_le_9 (board (Game_init human_player))); lia.
  - destruct human_player; lazy; reflexivity.
Qed.

Lemma certified_play_sound (fuel : nat) :
  forall certs g input e,
    certified_play certs fuel g input = Some e -> playGame fuel g input = e.
Proof.
  induction fuel as [|fuel IH]; intros certs g input e H.
  - injection H as <-. reflexivity.
  - cbn [certified_play] in H. cbn [playGame].
    destruct (mark_eqb (turn g) (human g)).
    + destruct (read_move g input) as [[[i j] rest]|];
        [|injection H as <-; reflexivity].
      cbv zeta in H. destruct (checkEnd _);
        [injection H as <-; reflexivity | apply (IH _ _ _ _ H)].
    + destruct certs as [|[k L] certs]; [discriminate H|].
      destruct (nth_error (getAvailableMoves g) k) as [[i j]|] eqn:Hk;
        [|discriminate H].
      destruct (best_cert g k L) eqn:Hc; [|discriminate H].
      rewrite (getBestMove_certified g k L (i, j) Hk Hc).
      cbv zeta in H. destruct (checkEnd _);
        [injection H as <-; reflexivity | apply (IH _ _ _ _ H)].
Qed.

End PlayFacts.

Module PlayTheorems.
Import PartB PartBFacts PartBPlay BoardFacts EngineFacts PlayFacts.

(** X9. Started on a position that is not over, with at least as much
    fuel as there are blank cells, [playGame] neither runs out of fuel nor
    unpacks a [None] move: it ends by [checkEnd] or by [EOFError] when the
    typed lines run out.  When it ends by [checkEnd] on a won board the
    winner is the player whose turn it is, as the message says; no mark
    that was on the board has been changed. *)
Theorem playGame_ends (g : Game) (input : list string) (fuel : nat) :
  checkEnd g = false -> (blanks (board g) <= fuel)%nat ->
  match playGame fuel g input with
  | GameOver final =>
    checkEnd final = true /\
    (checkWin final = true -> getWinner final = Some (Mk (turn final))) /\
    (forall i j, get (board g) i j <> Blank ->
                 get (board final) i j = get (board g) i j) /\
    human final = human g /\ computer final = computer g
  | EOFError => True
  | TypeError => False
  | OutOfFuel => False
  end.
Proof. intros Hend Hfuel. apply playGame_invariants; assumption. Qed.

Lemma playGame_ends_witness :
  checkEnd sample_game = false /\ (blanks (board sample_game) <= 9)%nat /\
  match playGame 9 sample_game typed_lines with
  | GameOver final =>
    checkEnd final = true /\
    (checkWin final = true -> getWinner final = Some (Mk (turn final))) /\
    (forall i j, get (board sample_game) i j <> Blank ->
                 get (board final) i j = get (board sample_game) i j) /\
    human final = human sample_game /\ computer final = computer sample_game
  | EOFError => True
  | TypeError => False
  | OutOfFuel => False
  end.
Proof.
  split; [reflexivity|]. split; [vm_compute; lia|].
  apply (playGame_ends sample_game typed_lines 9); [reflexivity | vm_compute; lia].
Defined.

(** X10. The minimax computer does not lose: however the human plays,
    and whichever mark the human chose, a game of [playGame] from the
    empty board that ends has not been won by the human; it is a win of
    the computer or a draw on a full board. *)
Theorem computer_never_loses (human_player : mark) (input : list string)
        (fuel : nat) (final : Game) :
  playGame fuel (Game_init human_player) input = GameOver final ->
  getWinner final <> Some (Mk human_player) /\
  (getWinner final = Some (Mk (computer final)) \/
   getWinner final = None /\ checkFull final = true).
Proof.
  intro Hplay.
  assert (Hhc : human (Game_init human_player) <> computer (Game_init human_player)).
  { destruct human_player; simpl; discriminate. }
  assert (Hend : checkEnd (Game_init human_player) = false).
  { destruct human_player; reflexivity. }
  pose proof (playGame_secure fuel _ input final Hhc Hend
                (Game_init_secure human_player) Hplay) as Hnot.
  split; [exact Hnot|].
  destruct (playGame_over fuel _ input final Hplay) as (Hover & Hh & Hc).
  rewrite <- Hh, <- Hc in Hhc. rewrite <- Hh in Hnot.
  apply over_cases; assumption.
Qed.

Lemma computer_never_loses_witness :
  playGame 9 (Game_init X) losing_lines = GameOver lost_game /\
  (getWinner lost_game <> Some (Mk X) /\
   (getWinner lost_game = Some (Mk (computer lost_game)) \/
    getWinner lost_game = None /\ checkFull lost_game = true)).
Proof.
  assert (H : playGame 9 (Game_init X) losing_lines = GameOver lost_game).
  { apply (certified_play_sound 9 losing_certs). vm_compute. reflexivity. }
  split; [exact H|].
  apply (computer_never_loses X losing_lines 9 lost_game H).
Defined.

End PlayTheorems.

(** ** The rest of Part C *)

Module PartCFacts.
Import PartC PartCPlay DatasetFacts VoteFacts LoaderFacts.

Lemma getBoardState_nth (b : Board) (i j : idx) :
  nth (Z.to_nat (idxZ i * 3 + idxZ j)) (getBoardState b) 0 = code (get b i j).
Proof. destruct i, j; reflexivity. Qed.

Lemma code_zero (x : cell) : code x = 0 <-> x = Blank.
Proof. destruct x as [|[]]; simpl; split; intro H; congruence. Qed.

Lemma small_index (p : Z) :
  0 <= p < 9 -> exists i j, p = idxZ i * 3 + idxZ j.
Proof.
  intro H.
  assert (C : p = 0 \/ p = 1 \/ p = 2 \/ p = 3 \/ p = 4 \/ p = 5 \/ p = 6
              \/ p = 7 \/ p = 8) by lia.
  destruct C as [->|[->|[->|[->|[->|[->|[->|[->| ->]]]]]]]].
  - exists I0, I0; reflexivity.
  - exists I0, I1; reflexivity.
  - exists I0, I2; reflexivity.
  - exists I1, I0; reflexivity.
  - exists I1, I1; reflexivity.
  - exists I1, I2; reflexivity.
  - exists I2, I0; reflexivity.
  - exists I2, I1; reflexivity.
  - exists I2, I2; reflexivity.
Qed.

Lemma available_cell (g : Game) (i j : idx) :
  In (idxZ i * 3 + idxZ j) (getAvailableMoves g) <-> get (board g) i j = Blank.
Proof.
  split.
  - intro H. destruct (available_index g _ H) as (i' & j' & E & Hb & _).
    apply (index_injective (i, j) (i', j')) in E. injection E as -> ->. exact Hb.
  - intro H. unfold getAvailableMoves. apply in_map_iff.
    exists (i, j). split; [reflexivity|]. apply filter_In.
    split; [destruct i, j; simpl; tauto | simpl; apply cell_eqb_eq; exact H].
Qed.

(** The available moves are the positions of the zeros of the state
    vector. *)
Lemma available_zero (g : Game) (p : Z) :
  In p (getAvailableMoves g) <->
  0 <= p < 9 /\ nth (Z.to_nat p) (getBoardState (board g)) 0 = 0.
Proof.
  split.
  - intro H. destruct (available_index g p H) as (i & j & -> & Hb & _).
    split; [destruct i, j; simpl; lia|].
    rewrite getBoardState_nth, Hb. reflexivity.
  - intros [Hr Hz]. destruct (small_index p Hr) as (i & j & ->).
    rewrite getBoardState_nth in Hz. apply code_zero in Hz.
    apply available_cell; exact Hz.
Qed.

Lemma validateEntry_blank (g : Game) (row col : Z) :
  validateEntry row col g = true <->
  exists i j, row = idxZ i /\ col = idxZ j /\ get (board g) i j = Blank.
Proof.
  split.
  - unfold validateEntry.
    destruct ((row <? 0) || (row >? 2) || (col <? 0) || (col >? 2));
      [discriminate|].
    destruct (to_idx row) as [i|] eqn:Ei; [|discriminate].
    destruct (to_idx col) as [j|] eqn:Ej; [|discriminate].
    apply BoardFacts.to_idx_Some in Ei, Ej.
    destruct (cell_eqb (get (board g) i j) Blank) eqn:E; [|discriminate].
    intros _. exists i, j. repeat split; try assumption.
    apply cell_eqb_eq; exact E.
  - intros (i & j & -> & -> & H). unfold validateEntry.
    apply cell_eqb_eq in H.
    destruct i, j; simpl; simpl in H; rewrite H; reflexivity.
Qed.

(** The candidates of [findSimilarBoardMoves]. *)
Lemma candidates_In (self : MLPlayer) (q : list Z) (k : nat) (x : Z) :
  In x (findSimilarBoardMoves self q k) ->
  exists r i, In r (dataset self) /\ x = Z.of_nat i /\ (i < 9)%nat /\
              nth i q 0 = 0 /\ nth i (fst r) 0 <> 0.
Proof.
  unfold findSimilarBoardMoves. rewrite in_flat_map.
  intros (s & Hs & Hx). apply differences_In in Hx.
  destruct Hx as (i & -> & Hi & Hq & Hb).
  apply (SearchFacts.incl_firstn k) in Hs.
  apply (Permutation_in _ (sort_desc_perm sim_key _)) in Hs.
  unfold similarities in Hs. apply in_map_iff in Hs.
  destruct Hs as (r & <- & Hr). exists r, i. repeat split; assumption.
Qed.

Lemma max_by_In {A} (key : A -> nat) (x : A) (xs : list A) :
  In (Py.max_by key x xs) (x :: xs).
Proof.
  destruct (max_by_first key xs x) as (pre & m & post & E & Hm & _).
  rewrite Hm, E. apply in_or_app. right; left; reflexivity.
Qed.

(** The answer of [findBestMove] on an outcome-labelled dataset is one of
    the candidates. *)
Lemma final_answer_candidate (set_iter : list Z -> list Z) (self : MLPlayer)
      (q : list Z) (p : Z) :
  dataset_type self = final ->
  incl (set_iter (findSimilarBoardMoves self q 5))
       (findSimilarBoardMoves self q 5) ->
  findBestMove set_iter self q = Some p ->
  In p (findSimilarBoardMoves self q 5).
Proof.
  intros Hk Hset. unfold findBestMove. rewrite Hk.
  destruct (dataset self); [discriminate|]. cbv zeta.
  destruct (findSimilarBoardMoves self q 5) as [|c moves] eqn:E; [discriminate|].
  unfold most_common.
  destruct (set_iter (c :: moves)) as [|x xs] eqn:Ei; [discriminate|].
  intro H. injection H as <-. apply Hset. apply max_by_In.
Qed.

Lemma similarity_count (a b : list Z) :
  similarity a b =
  Z.of_nat (List.length (filter (fun i => nth i a 0 =? nth i b 0) (seq 0 9))).
Proof. reflexivity. Qed.

(** Two lists of nine integers that agree at the nine positions are
    equal. *)
Lemma nine_ext (a b : list Z) :
  List.length a = 9%nat -> List.length b = 9%nat ->
  (forall i, (i < 9)%nat -> nth i a 0 = nth i b 0) -> a = b.
Proof.
  intros Ha Hb H.
  apply (nth_ext a b 0 0); [congruence|].
  intros n Hn. apply H. lia.
Qed.

Lemma filter_all {A} (f : A -> bool) (l : list A) :
  List.length (filter f l) = List.length l -> forall x, In x l -> f x = true.
Proof.
  induction l as [|y l IH]; intros H x Hx; [destruct Hx|].
  simpl in H. destruct (f y) eqn:E.
  - simpl in H. destruct Hx as [<-|Hx]; [exact E | apply IH; [lia | exact Hx]].
  - pose proof (filter_length_le f l). simpl in H. lia.
Qed.

Lemma filter_all_length {A} (f : A -> bool) (l : list A) :
  (forall x, In x l -> f x = true) -> List.length (filter f l) = List.length l.
Proof.
  intro H. induction l as [|y l IH]; [reflexivity|].
  simpl. rewrite (H y (or_introl eq_refl)). simpl. f_equal.
  apply IH. intros x Hx. apply H. right; exact Hx.
Qed.

Lemma load_lines_prefix (lines : list string) :
  forall ds, exists k,
    snd (load_lines lines ds) = ds ++ records_of (firstn k lines).
Proof.
  induction lines as [|line lines IH]; intro ds.
  - exists 0%nat. simpl. rewrite app_nil_r. reflexivity.
  - cbn [load_lines]. rewrite load_line_cases.
    destruct (parses line).
    + destruct (IH (ds ++ record_of line)) as [k Hk].
      exists (S k). rewrite Hk. cbn [firstn]. unfold records_of. simpl.
      rewrite app_assoc. reflexivity.
    + exists 0%nat. simpl. rewrite app_nil_r. reflexivity.
Qed.

Lemma loadDataset_prefix (fs : string -> option (list string))
      (filename : string) (ds : list record) :
  exists lines, snd (loadDataset fs filename ds) = ds ++ records_of lines.
Proof.
  unfold loadDataset. destruct (fs filename) as [lines|].
  - destruct (load_lines_prefix lines ds) as [k Hk].
    exists (firstn k lines). rewrite <- Hk.
    destruct (load_lines lines ds) as [[u|] ds']; simpl.
    + destruct (Py.contains "single" (Py.lower filename)); [reflexivity|].
      destruct (Py.contains "final" (Py.lower filename)); reflexivity.
    + reflexivity.
  - exists []. simpl. rewrite app_nil_r. reflexivity.
Qed.

End PartCFacts.

Module PartCTheorems.
Import PartC PartCPlay DatasetFacts VoteFacts LoaderFacts PartCFacts.

(** X11. [getBoardState] returns nine integers, each [1], [-1] or [0];
    the component at [i * 3 + j] stands for the cell [(i, j)]; its zeros
    are at the indices [getAvailableMoves] lists; after a cell is
    written, only the component of that cell has changed. *)
Theorem getBoardState_board (g : Game) :
  List.length (getBoardState (board g)) = 9%nat /\
  Forall (fun v => v = 1 \/ v = -1 \/ v = 0) (getBoardState (board g)) /\
  (forall i j, nth (Z.to_nat (idxZ i * 3 + idxZ j)) (getBoardState (board g)) 0
               = code (get (board g) i j)) /\
  (forall p, In p (getAvailableMoves g) <->
             0 <= p < 9 /\ nth (Z.to_nat p) (getBoardState (board g)) 0 = 0) /\
  (forall i j v i' j',
      (i', j') <> (i, j) ->
      nth (Z.to_nat (idxZ i' * 3 + idxZ j'))
          (getBoardState (set (board g) i j v)) 0
      = nth (Z.to_nat (idxZ i' * 3 + idxZ j')) (getBoardState (board g)) 0).
Proof.
  split; [reflexivity|].
  split.
  { unfold getBoardState. apply Forall_forall. intros v Hv.
    apply in_map_iff in Hv. destruct Hv as (p & <- & _).
    destruct (get (board g) (fst p) (snd p)) as [|[]]; tauto. }
  split; [intros i j; apply getBoardState_nth|].
  split; [intro p; apply available_zero|].
  intros i j v i' j' Hne. rewrite !getBoardState_nth. f_equal.
  destruct i, j, i', j'; try reflexivity; contradiction Hne; reflexivity.
Qed.

(** X12. [indexToRowCol] undoes [row * 3 + col]: for every integer
    [index] the pair [(row, col)] it returns has [row * 3 + col = index]
    and [0 <= col <= 2]; [row] is in [0..2] exactly when [index] is in
    [0..8]; and [indexToRowCol(i * 3 + j)] is [(i, j)] for [j] in
    [0..2]. *)
Theorem indexToRowCol_round_trip (index : Z) :
  fst (indexToRowCol index) * 3 + snd (indexToRowCol index) = index /\
  0 <= snd (indexToRowCol index) <= 2 /\
  (0 <= fst (indexToRowCol index) <= 2 <-> 0 <= index <= 8) /\
  (forall row col, 0 <= col <= 2 -> indexToRowCol (row * 3 + col) = (row, col)).
Proof.
  unfold indexToRowCol; cbn [fst snd].
  pose proof (Z.div_mod index 3 ltac:(lia)) as E.
  pose proof (Z.mod_pos_bound index 3 ltac:(lia)) as B.
  repeat split; try lia.
  intros row col Hc. f_equal.
  - rewrite Z.add_comm, Z.div_add by lia. rewrite Z.div_small by lia. lia.
  - rewrite Z.add_comm, Z.mod_add by lia. apply Z.mod_small. lia.
Qed.

(** X13. The similarity of two state vectors is between 0 and 9 and does
    not depend on their order; for vectors of nine components it is 9
    exactly when they are equal. *)
Theorem similarity_bounds (a b : list Z) :
  0 <= similarity a b <= 9 /\
  similarity a b = similarity b a /\
  (List.length a = 9%nat -> List.length b = 9%nat ->
   (similarity a b = 9 <-> a = b)).
Proof.
  split; [|split].
  - unfold similarity, range9.
    pose proof (filter_length_le (fun i => nth i a 0 =? nth i b 0) (seq 0 9)) as H.
    rewrite length_seq in H. lia.
  - unfold similarity. do 2 f_equal. apply filter_ext.
    intro i. apply Z.eqb_sym.
  - intros Ha Hb. split.
    + intro H. apply (nine_ext a b Ha Hb). intros i Hi.
      apply Z.eqb_eq.
      apply (filter_all (fun i => nth i a 0 =? nth i b 0) (seq 0 9)).
      * rewrite length_seq. unfold similarity, range9 in H. lia.
      * apply in_seq. lia.
    + intros ->. unfold similarity, range9.
      rewrite filter_all_length; [rewrite length_seq; reflexivity|].
      intros i _. apply Z.eqb_refl.
Qed.

Lemma similarity_bounds_witness :
  0 <= similarity example_state blank_state <= 9 /\
  similarity example_state blank_state = similarity blank_state example_state /\
  (List.length example_state = 9%nat -> List.length blank_state = 9%nat ->
   (similarity example_state blank_state = 9 <-> example_state = blank_state)).
Proof. apply (similarity_bounds example_state blank_state). Defined.

(** X14. Every candidate of [findSimilarBoardMoves] is an index in
    [0..8] at which the query is [0] and some record of the dataset is
    not.  Hence, on the state vector of the board, what [findBestMove]
    returns for an outcome-labelled dataset is an available move, and
    [getMLMove] plays it: it never falls back to the random move then.
    (The set of the candidates is iterated over candidates only.) *)
Theorem final_prediction_played (set_iter : list Z -> list Z)
        (randbelow : nat -> nat) (g : Game) (p : Z) :
  dataset_type (ml_player g) = final ->
  incl (set_iter (findSimilarBoardMoves (ml_player g)
                                        (getBoardState (board g)) 5))
       (findSimilarBoardMoves (ml_player g) (getBoardState (board g)) 5) ->
  findBestMove set_iter (ml_player g) (getBoardState (board g)) = Some p ->
  (forall q k x,
      In x (findSimilarBoardMoves (ml_player g) q k) ->
      0 <= x <= 8 /\ nth (Z.to_nat x) q 0 = 0 /\
      exists r, In r (dataset (ml_player g)) /\ nth (Z.to_nat x) (fst r) 0 <> 0) /\
  In p (getAvailableMoves g) /\
  getMLMove set_iter randbelow g = Some (indexToRowCol p).
Proof.
  intros Hk Hset Hp.
  assert (Hcand : forall q k x,
             In x (findSimilarBoardMoves (ml_player g) q k) ->
             0 <= x <= 8 /\ nth (Z.to_nat x) q 0 = 0 /\
             exists r, In r (dataset (ml_player g))
                       /\ nth (Z.to_nat x) (fst r) 0 <> 0).
  { intros q k x Hx. apply candidates_In in Hx.
    destruct Hx as (r & i & Hr & -> & Hi & Hq & Hb).
    rewrite Nat2Z.id. split; [lia|]. split; [exact Hq|].
    exists r. split; assumption. }
  split; [exact Hcand|].
  assert (Hav : In p (getAvailableMoves g)).
  { apply available_zero.
    pose proof (final_answer_candidate set_iter _ _ p Hk Hset Hp) as Hin.
    destruct (Hcand _ _ _ Hin) as (Hr & Hz & _). split; [lia | exact Hz]. }
  split; [exact Hav|].
  unfold getMLMove. rewrite Hp.
  apply mem_In in Hav. rewrite Hav. reflexivity.
Qed.

Lemma final_prediction_played_witness :
  dataset_type (ml_player sample_ml_game) = final /\
  findBestMove CPythonSet.set_iter (ml_player sample_ml_game)
               (getBoardState (board sample_ml_game)) = Some 2 /\
  In 2 (getAvailableMoves sample_ml_game) /\
  getMLMove CPythonSet.set_iter (fun _ => 0%nat) sample_ml_game
  = Some (indexToRowCol 2).
Proof.
  split; [reflexivity|]. split; [reflexivity|].
  apply (final_prediction_played CPythonSet.set_iter (fun _ => 0%nat)
                                 sample_ml_game 2).
  - reflexivity.
  - vm_compute. intros x H. tauto.
  - reflexivity.
Defined.

(** X15. When the dataset file does not exist, [loadDataset] returns
    ['single'] and leaves the dataset as it was, the game is created with
    an empty dataset, [findBestMove] returns [None] on every state, and
    [getMLMove] is the random choice among the available moves. *)
Theorem missing_file_random (fs : string -> option (list string))
        (human_player : mark) (dataset_file : string)
        (set_iter : list Z -> list Z) (randbelow : nat -> nat) :
  fs dataset_file = None ->
  (forall ds, loadDataset fs dataset_file ds = (Returned single, ds)) /\
  exists g,
    Game_init fs human_player dataset_file = Returned g /\
    dataset (ml_player g) = [] /\
    (forall q, findBestMove set_iter (ml_player g) q = None) /\
    (forall b t,
        getMLMove set_iter randbelow
                  (mkGame b t (human g) (computer g) (ml_player g))
        = option_map indexToRowCol
            (random_choice randbelow
               (getAvailableMoves
                  (mkGame b t (human g) (computer g) (ml_player g))))).
Proof.
  intro Hfs.
  assert (Hload : forall ds, loadDataset fs dataset_file ds = (Returned single, ds)).
  { intro ds. unfold loadDataset. rewrite Hfs. reflexivity. }
  split; [exact Hload|].
  unfold Game_init, MLPlayer_init. rewrite Hload.
  eexists. split; [reflexivity|]. cbn [ml_player dataset].
  repeat split.
Qed.

Lemma missing_file_random_witness :
  no_file "tictac_single.txt"%string = None /\
  (forall ds, loadDataset no_file "tictac_single.txt" ds = (Returned single, ds)).
Proof.
  split; [reflexivity|].
  apply (missing_file_random no_file X "tictac_single.txt"
                             CPythonSet.set_iter (fun _ => 0%nat)).
  reflexivity.
Defined.

(** X16. Whatever the file holds and however the load ends, [loadDataset]
    only appends: the records that were in the dataset stay in front, in
    order, and every record it adds has a state vector of nine
    components.  It returns ['final'] only for an existing file whose
    name contains "final" and not "single", letter case apart. *)
Theorem loadDataset_appends (fs : string -> option (list string))
        (filename : string) (ds : list record) :
  (exists added,
      snd (loadDataset fs filename ds) = ds ++ added /\ well_formed added) /\
  (fst (loadDataset fs filename ds) = Returned final ->
   fs filename <> None /\
   Py.contains "final" (Py.lower filename) = true /\
   Py.contains "single" (Py.lower filename) = false).
Proof.
  split.
  - destruct (loadDataset_prefix fs filename ds) as [lines H].
    exists (records_of lines). split; [exact H | apply records_of_well_formed].
  - unfold loadDataset. destruct (fs filename) as [lines|]; [|discriminate].
    destruct (load_lines lines ds) as [[u|] ds']; [|discriminate].
    destruct (Py.contains "single" (Py.lower filename)); [discriminate|].
    destruct (Py.contains "final" (Py.lower filename)); [|discriminate].
    intros _. repeat split. discriminate.
Qed.

(** X17. On a full board [getMLMove] raises: no prediction is an
    available move, and [random.choice] of the empty list raises
    [IndexError]. *)
Theorem getMLMove_full_board (set_iter : list Z -> list Z)
        (randbelow : nat -> nat) (g : Game) :
  checkFull g = true ->
  getAvailableMoves g = [] /\ getMLMove set_iter randbelow g = None.
Proof.
  intro Hfull.
  assert (E : getAvailableMoves g = []).
  { destruct (getAvailableMoves g) as [|p l] eqn:E; [reflexivity|].
    assert (Hin : In p (getAvailableMoves g)) by (rewrite E; left; reflexivity).
    destruct (available_index g p Hin) as (i & j & _ & Hb & _).
    unfold checkFull in Hfull. rewrite forallb_forall in Hfull.
    specialize (Hfull (i, j)). simpl in Hfull. rewrite Hb in Hfull.
    assert (F : false = true); [|discriminate F].
    apply Hfull. destruct i, j; simpl; tauto. }
  split; [exact E|].
  unfold getMLMove. rewrite E. simpl.
  destruct (findBestMove _ _ _); reflexivity.
Qed.

Lemma getMLMove_full_board_witness :
  checkFull (mkGame PartB.drawn_board X O X (mkMLPlayer tie_dataset final))
  = true /\
  getMLMove CPythonSet.set_iter (fun _ => 0%nat)
            (mkGame PartB.drawn_board X O X (mkMLPlayer tie_dataset final))
  = None.
Proof.
  split; [reflexivity|].
  apply (getMLMove_full_board CPythonSet.set_iter (fun _ => 0%nat)
           (mkGame PartB.drawn_board X O X (mkMLPlayer tie_dataset final))).
  reflexivity.
Defined.

(** X18. In Part C [validateEntry(row, col)] returns [True] exactly when
    [row] and [col] are in [0..2] and the index [row * 3 + col] is among
    the available moves; so it accepts [indexToRowCol(p)] for every
    available move [p]. *)
Theorem validateEntry_index (g : Game) (row col : Z) :
  (validateEntry row col g = true <->
   0 <= row <= 2 /\ 0 <= col <= 2 /\ In (row * 3 + col) (getAvailableMoves g)) /\
  (forall p, In p (getAvailableMoves g) ->
             validateEntry (fst (indexToRowCol p)) (snd (indexToRowCol p)) g
             = true).
Proof.
  split.
  - rewrite validateEntry_blank. split.
    + intros (i & j & -> & -> & Hb).
      split; [destruct i; simpl; lia|]. split; [destruct j; simpl; lia|].
      apply available_cell; exact Hb.
    + intros (Hr & Hc & Hin).
      destruct (available_index g _ Hin) as (i & j & E & Hb & _).
      exists i, j.
      assert (row = idxZ i /\ col = idxZ j) as [-> ->].
      { destruct i, j; cbn [idxZ] in *; lia. }
      repeat split. exact Hb.
  - intros p Hin. destruct (available_index g p Hin) as (i & j & _ & Hb & ->).
    apply validateEntry_blank. exists i, j. repeat split. exact Hb.
Qed.

End PartCTheorems.

(** ** The marks alternate *)

Module TurnFacts.
Import PartB PartBFacts PartBPlay BoardFacts EngineFacts PlayFacts.

Lemma marks_sum (m : mark) (b : Board) :
  marks m b =
  (is_mark m (get b I0 I0) + is_mark m (get b I0 I1) + is_mark m (get b I0 I2) +
   is_mark m (get b I1 I0) + is_mark m (get b I1 I1) + is_mark m (get b I1 I2) +
   is_mark m (get b I2 I0) + is_mark m (get b I2 I1) + is_mark m (get b I2 I2))%nat.
Proof.
  destruct b as [[a0 a1 a2] [b0 b1 b2] [d0 d1 d2]].
  unfold marks, is_mark; simpl.
  destruct (cell_eqb a0 (Mk m)), (cell_eqb a1 (Mk m)), (cell_eqb a2 (Mk m)),
           (cell_eqb b0 (Mk m)), (cell_eqb b1 (Mk m)), (cell_eqb b2 (Mk m)),
           (cell_eqb d0 (Mk m)), (cell_eqb d1 (Mk m)), (cell_eqb d2 (Mk m));
    reflexivity.
Qed.

(** A mark placed on a blank cell is one more of its kind and leaves the
    number of the other kind. *)
Lemma marks_set (b : Board) (i j : idx) (m : mark) :
  get b i j = Blank ->
  marks m (set b i j (Mk m)) = S (marks m b) /\
  forall m', m' <> m -> marks m' (set b i j (Mk m)) = marks m' b.
Proof.
  intro H. split; [|intros m' Hm']; rewrite !marks_sum;
    destruct b as [[a0 a1 a2] [b0 b1 b2] [d0 d1 d2]];
    destruct i, j; cbn in H; subst; cbn;
    unfold is_mark; simpl;
    try (destruct m; simpl; lia);
    destruct m, m'; simpl; try lia; contradiction Hm'; reflexivity.
Qed.

Lemma in_turn_step (g : Game) (i j : idx) :
  get (board g) i j = Blank -> in_turn g ->
  in_turn (switchPlayer (after_move g i j)) /\
  (marks O (board (after_move g i j)) <= marks X (board (after_move g i j))
   <= S (marks O (board (after_move g i j))))%nat.
Proof.
  intros Hb Ht. unfold in_turn in *.
  unfold switchPlayer, after_move, assign, with_board; cbn [turn board].
  destruct (marks_set (board g) i j (turn g) Hb) as [Hs Ho].
  destruct (turn g); cbn [mark_eqb].
  - rewrite Hs, (Ho O) by discriminate. lia.
  - rewrite Hs, (Ho X) by discriminate. lia.
Qed.

Lemma playGame_alternates (fuel : nat) :
  forall (g : Game) (input : list string) (final : Game),
    checkEnd g = false -> in_turn g ->
    playGame fuel g input = GameOver final ->
    (marks O (board final) <= marks X (board final)
     <= S (marks O (board final)))%nat.
Proof.
  induction fuel as [|fuel IH]; intros g input final Hend Ht Hplay;
    [discriminate Hplay|].
  destruct (checkEnd_false g Hend) as [_ Hfull].
  destruct (playGame_turn fuel g input Hfull)
    as [E|(i & j & rest & Hb & _ & E)];
    rewrite E in Hplay; [discriminate Hplay|].
  destruct (in_turn_step g i j Hb Ht) as [Hnext Hcount].
  destruct (checkEnd (after_move g i j)) eqn:Hend'.
  - injection Hplay as <-. exact Hcount.
  - apply (IH (switchPlayer (after_move g i j)) rest final Hend' Hnext Hplay).
Qed.

End TurnFacts.

Module TurnTheorems.
Import PartB PartBFacts PartBPlay BoardFacts EngineFacts PlayFacts TurnFacts.

(** X19. The marks alternate: in a game of [playGame] from the empty
    board that ends, the final board holds as many [X] as [O] or one [X]
    more; [switchPlayer] hands the turn to the other mark and, applied
    twice, gives the game back. *)
Theorem playGame_marks_alternate (human_player : mark) (input : list string)
        (fuel : nat) (final : Game) :
  playGame fuel (Game_init human_player) input = GameOver final ->
  (marks O (board final) <= marks X (board final)
   <= S (marks O (board final)))%nat /\
  (forall g, turn (switchPlayer g) <> turn g /\
             switchPlayer (switchPlayer g) = g).
Proof.
  intro Hplay. split.
  - apply (playGame_alternates fuel (Game_init human_player) input final).
    + destruct human_player; reflexivity.
    + reflexivity.
    + exact Hplay.
  - intros [b t h c]. unfold switchPlayer; cbn [turn board human computer].
    destruct t; simpl; split; first [discriminate | reflexivity].
Qed.

Lemma playGame_marks_alternate_witness :
  playGame 9 (Game_init X) losing_lines = GameOver lost_game /\
  (marks O (board lost_game) <= marks X (board lost_game)
   <= S (marks O (board lost_game)))%nat.
Proof.
  assert (H : playGame 9 (Game_init X) losing_lines = GameOver lost_game).
  { apply (certified_play_sound 9 losing_certs). vm_compute. reflexivity. }
  split; [exact H|].
  apply (playGame_marks_alternate X losing_lines 9 lost_game H).
Defined.

End TurnTheorems.

(** ** The game loop of Part C *)

Module PartCLoopFacts.
Import PartC PartCPlay PartCLoop DatasetFacts PartCFacts.

Lemma checkFull_blanks (g : Game) : checkFull g = true <-> blanks (board g) = 0%nat.
Proof.
  unfold checkFull, blanks. split.
  - intro H. rewrite forallb_forall in H.
    destruct (filter _ row_major) as [|p l] eqn:E; [reflexivity|].
    assert (Hin : In p (filter (fun p => cell_eqb (get (board g) (fst p) (snd p)) Blank)
                               row_major)) by (rewrite E; left; reflexivity).
    apply filter_In in Hin. destruct Hin as [Hr Hb].
    specialize (H p Hr). rewrite Hb in H. discriminate H.
  - intro H. apply forallb_forall. intros p Hp.
    destruct (cell_eqb (get (board g) (fst p) (snd p)) Blank) eqn:E; [|reflexivity].
    assert (Hin : In p (filter (fun p => cell_eqb (get (board g) (fst p) (snd p)) Blank)
                               row_major)) by (apply filter_In; split; assumption).
    destruct (filter _ row_major); [destruct Hin | discriminate H].
Qed.

(** The cell the user's entry names is blank. *)
Lemma read_move_cell (g : Game) (n : nat) :
  forall input i j rest,
    (List.length input <= n)%nat ->
    read_move g input = Some (i, j, rest) ->
    get (board g) i j = Blank.
Proof.
  induction n as [|n IH]; intros input i j rest Hn H.
  - destruct input; [discriminate H | simpl in Hn; lia].
  - destruct input as [|r input]; [discriminate H|].
    cbn [read_move] in H. simpl in Hn.
    destruct (PartBPlay.read_int r) as [row|].
    + destruct input as [|c input]; [discriminate H|].
      simpl in Hn.
      destruct (PartBPlay.read_int c) as [col|].
      * destruct (validateEntry row col g) eqn:Hv.
        -- destruct (to_idx row) as [i'|] eqn:Ei; [|discriminate H].
           destruct (to_idx col) as [j'|] eqn:Ej; [|discriminate H].
           injection H as -> -> ->.
           apply BoardFacts.to_idx_Some in Ei, Ej. subst row col.
           apply validateEntry_blank in Hv.
           destruct Hv as (i' & j' & Ei & Ej & Hb).
           assert (i' = i) by (destruct i, i'; simpl in Ei; congruence).
           assert (j' = j) by (destruct j, j'; simpl in Ej; congruence).
           subst. exact Hb.
        -- apply (IH input i j rest); [lia | exact H].
      * apply (IH input i j rest); [lia | exact H].
    + apply (IH input i j rest); [lia | exact H].
Qed.

(** On a board with a blank cell [getMLMove] returns the coordinates of
    a blank cell. *)
Lemma getMLMove_cell (set_iter : list Z -> list Z) (randbelow : nat -> nat)
      (g : Game) :
  (forall n, (0 < n)%nat -> (randbelow n < n)%nat) ->
  checkFull g = false ->
  exists i j, getMLMove set_iter randbelow g = Some (idxZ i, idxZ j) /\
              get (board g) i j = Blank.
Proof.
  intros Hr Hfull.
  pose proof (checkFull_moves g Hfull) as Hne.
  destruct (random_choice_In randbelow _ Hr Hne) as (x & Hx & _ & Hin).
  destruct (available_index g x Hin) as (xi & xj & _ & Hxb & Hxrc).
  unfold getMLMove. rewrite Hx. cbn [option_map]. rewrite Hxrc.
  destruct (findBestMove set_iter (ml_player g) (getBoardState (board g)))
    as [p|]; [|exists xi, xj; split; [reflexivity | exact Hxb]].
  destruct (Py.mem p (getAvailableMoves g)) eqn:Hm;
    [|exists xi, xj; split; [reflexivity | exact Hxb]].
  apply mem_In in Hm.
  destruct (available_index g p Hm) as (i & j & _ & Hb & ->).
  exists i, j. split; [reflexivity | exact Hb].
Qed.

Lemma to_idx_back (i : idx) : to_idx (idxZ i) = Some i.
Proof. destruct i; reflexivity. Qed.

Lemma set_other (b : Board) (i j i' j' : idx) (v : cell) :
  (i, j) <> (i', j') -> get (set b i j v) i' j' = get b i' j'.
Proof.
  intro H. destruct i, j, i', j'; try reflexivity; contradiction H; reflexivity.
Qed.

(** A dataset of records of nine components has no short record. *)
Lemma well_formed_not_short (p : MLPlayer) :
  well_formed (dataset p) -> short_record p = false.
Proof.
  destruct p as [ds k]. unfold short_record; cbn [dataset dataset_type].
  intro H. destruct k; [reflexivity|].
  apply not_true_is_false. intro E.
  apply existsb_exists in E. destruct E as (r & Hin & Hr).
  unfold well_formed in H. rewrite Forall_forall in H.
  specialize (H r Hin). apply Nat.ltb_lt in Hr. lia.
Qed.

(** With a short record in a dataset of the kind ['final'], the first
    turn of the computer raises [IndexError]. *)
Lemma short_record_raises (set_iter : list Z -> list Z)
      (rand : nat -> nat -> nat) (fuel n : nat) (g : Game)
      (input : list string) :
  mark_eqb (turn g) (human g) = false ->
  short_record (ml_player g) = true ->
  playGame set_iter rand (S fuel) n g input = IndexError.
Proof.
  intros Ht Hs. cbn [playGame]. rewrite Ht.
  unfold getMLMove_raising. rewrite Hs. reflexivity.
Qed.

(** So it does on [short_game], where the computer moves first. *)
Lemma short_game_raises :
  checkEnd short_game = false /\
  playGame CPythonSet.set_iter (fun _ _ => 0%nat) 9 0 short_game ml_lines
  = IndexError.
Proof.
  split; [reflexivity|].
  apply (short_record_raises CPythonSet.set_iter (fun _ _ => 0%nat) 8 0
                             short_game ml_lines); reflexivity.
Qed.

(** What one turn of the loop does. *)
Lemma ml_playGame_turn (set_iter : list Z -> list Z) (rand : nat -> nat -> nat)
      (fuel n : nat) (g : Game) (input : list string) :
  (forall t k, (0 < k)%nat -> (rand t k < k)%nat) ->
  well_formed (dataset (ml_player g)) ->
  checkFull g = false ->
  playGame set_iter rand (S fuel) n g input = EOFError \/
  exists i j rest,
    get (board g) i j = Blank /\
    playGame set_iter rand (S fuel) n g input =
    if checkEnd (assign i j (Mk (turn g)) g)
    then GameOver (assign i j (Mk (turn g)) g)
    else playGame set_iter rand fuel (S n)
                  (switchPlayer (assign i j (Mk (turn g)) g)) rest.
Proof.
  intros Hr Hwf Hfull. cbn [playGame].
  destruct (mark_eqb (turn g) (human g)).
  - destruct (read_move g input) as [[[i j] rest]|] eqn:E; [|left; reflexivity].
    right. exists i, j, rest.
    split; [apply (read_move_cell g _ input i j rest (le_n _) E)|].
    destruct (checkEnd _); reflexivity.
  - unfold getMLMove_raising.
    rewrite (well_formed_not_short (ml_player g) Hwf).
    destruct (getMLMove_cell set_iter (rand n) g (Hr n) Hfull)
      as (i & j & -> & Hb).
    right. exists i, j, input. rewrite !to_idx_back.
    split; [exact Hb|]. destruct (checkEnd _); reflexivity.
Qed.

Lemma ml_playGame_invariants (set_iter : list Z -> list Z)
      (rand : nat -> nat -> nat) (fuel : nat) :
  (forall t k, (0 < k)%nat -> (rand t k < k)%nat) ->
  forall (n : nat) (g : Game) (input : list string),
    well_formed (dataset (ml_player g)) ->
    checkEnd g = false -> (blanks (board g) <= fuel)%nat ->
    match playGame set_iter rand fuel n g input with
    | GameOver over =>
      checkEnd over = true /\
      (forall i j, get (board g) i j <> Blank ->
                   get (board over) i j = get (board g) i j) /\
      (blanks (board over) < blanks (board g))%nat /\
      ml_player over = ml_player g
    | EOFError => True
    | IndexError => False
    | OutOfFuel => False
    end.
Proof.
  intro Hr. induction fuel as [|fuel IH]; intros n g input Hwf Hend Hfuel.
  - assert (Hfull : checkFull g = true) by (apply checkFull_blanks; lia).
    unfold checkEnd in Hend. rewrite Hfull in Hend.
    destruct (checkWin g); discriminate Hend.
  - assert (Hfull : checkFull g = false).
    { unfold checkEnd in Hend. destruct (checkWin g); [discriminate Hend|].
      destruct (checkFull g); [discriminate Hend | reflexivity]. }
    destruct (ml_playGame_turn set_iter rand fuel n g input Hr Hwf Hfull)
      as [->|(i & j & rest & Hb & ->)]; [exact I|].
    assert (Hkeep : forall i' j', get (board g) i' j' <> Blank ->
               get (board (assign i j (Mk (turn g)) g)) i' j'
               = get (board g) i' j').
    { intros i' j' Hne. cbn [assign board].
      apply set_other. intro E. injection E as -> ->. contradiction. }
    pose proof (blanks_set (board g) i j (turn g) Hb) as Hbl.
    destruct (checkEnd (assign i j (Mk (turn g)) g)) eqn:Hend'.
    + split; [exact Hend'|]. split; [exact Hkeep|].
      split; [cbn [assign board]; lia | reflexivity].
    + specialize (IH (S n) (switchPlayer (assign i j (Mk (turn g)) g)) rest
                     Hwf Hend').
      cbn [switchPlayer assign board] in IH. specialize (IH ltac:(lia)).
      destruct (playGame set_iter rand fuel (S n) _ rest)
        as [over| | |]; try exact IH.
      destruct IH as (H1 & H2 & H3 & H4).
      split; [exact H1|]. split; [|split; [lia | exact H4]].
      intros i' j' Hne. rewrite <- (Hkeep i' j' Hne).
      cbn [assign board] in Hkeep |- *. apply H2.
      rewrite (Hkeep i' j' Hne). exact Hne.
Qed.

End PartCLoopFacts.

Module PartCLoopTheorems.
Import PartC PartCPlay PartCLoop PartCLoopFacts.

(** X20. Part C's [playGame], started on a position that is not over
    with a dataset whose records have state vectors of nine components
    (as [loadDataset] builds them), and whatever the random draws and the
    typed lines, takes at most as many turns as there are blank cells and
    never raises [IndexError]: [findSimilarBoardMoves] finds the nine
    components it reads, [getMLMove] is only called on a board with a
    blank cell, and the cell it returns is in range.  The game ends by
    [checkEnd] or by [EOFError] when the typed lines run out; when it ends
    by [checkEnd], marks were only added: no mark that was on the board
    has been changed, and the dataset is the one it started with. *)
Theorem playGame_ml_ends (set_iter : list Z -> list Z)
        (rand : nat -> nat -> nat) (fuel n : nat) (g : Game)
        (input : list string) :
  (forall t k, (0 < k)%nat -> (rand t k < k)%nat) ->
  well_formed (dataset (ml_player g)) ->
  checkEnd g = false -> (blanks (board g) <= fuel)%nat ->
  match playGame set_iter rand fuel n g input with
  | GameOver over =>
    checkEnd over = true /\
    (forall i j, get (board g) i j <> Blank ->
                 get (board over) i j = get (board g) i j) /\
    (blanks (board over) < blanks (board g))%nat /\
    ml_player over = ml_player g
  | EOFError => True
  | IndexError => False
  | OutOfFuel => False
  end.
Proof.
  intros Hr Hwf Hend Hfuel. apply ml_playGame_invariants; assumption.
Qed.

Lemma playGame_ml_ends_witness :
  (forall t k : nat, (0 < k)%nat -> ((fun _ _ => 0%nat) t k < k)%nat) /\
  well_formed (dataset (ml_player sample_ml_game)) /\
  checkEnd sample_ml_game = false /\
  (blanks (board sample_ml_game) <= 9)%nat /\
  match playGame CPythonSet.set_iter (fun _ _ => 0%nat) 9 0 sample_ml_game
                 ml_lines with
  | GameOver over =>
    checkEnd over = true /\
    (forall i j, get (board sample_ml_game) i j <> Blank ->
                 get (board over) i j = get (board sample_ml_game) i j) /\
    (blanks (board over) < blanks (board sample_ml_game))%nat /\
    ml_player over = ml_player sample_ml_game
  | EOFError => True
  | IndexError => False
  | OutOfFuel => False
  end.
Proof.
  split; [intros t k H; exact H|].
  split; [repeat constructor|]. split; [reflexivity|].
  split; [vm_compute; lia|].
  apply (playGame_ml_ends CPythonSet.set_iter (fun _ _ => 0%nat) 9 0
                          sample_ml_game ml_lines).
  - intros t k H; exact H.
  - repeat constructor.
  - reflexivity.
  - vm_compute; lia.
Defined.

End PartCLoopTheorems.
